(** * The to-do list component of [src/myproject/App.js]

    A shallow embedding of the second [App] component of the file (the one
    with [tasks], [taskAnimations], [addTask], [deleteTask], ...), together
    with the parts of the host it talks to: JavaScript strings,
    [String.prototype.trim], [JSON.stringify] / [JSON.parse], the
    [AsyncStorage] slot, [Animated.timing] and React's render/effect cycle,
    first as the source file spells it out ([render], [step]), then with
    what react-native does to the animation of a value that leaves the screen
    ([commit], [stepStop]). *)

From Stdlib Require Import NArith ZArith String Ascii List Lia DecimalString.
From stdpp Require Import base option list gmap.

Set Warnings "-register-all".

Local Open Scope N_scope.

(** ** JavaScript strings

    A JavaScript string is a sequence of UTF-16 code units.  A code unit is
    an [N]; the functions below never produce one above [0xFFFF] from
    smaller ones. *)

(** ASCII literals of the source, as code units. *)
Definition lit (s : string) : list N :=
  map N_of_ascii (list_ascii_of_string s).

(** The same with every apostrophe read as a double quote, to write JSON
    texts. *)
Definition jsonText (s : string) : list N :=
  map (fun c => if c =? 39 then 34 else c) (lit s).

(** ECMAScript [WhiteSpace] and [LineTerminator] code points, the ones
    [trim] strips: TAB, LF, VT, FF, CR, SP, NBSP, the Unicode [Zs] category
    (U+1680, U+2000..U+200A, U+202F, U+205F, U+3000), LS, PS and the BOM. *)
Definition isWhiteSpace (c : N) : bool :=
  (c =? 9) || (c =? 10) || (c =? 11) || (c =? 12) || (c =? 13) ||
  (c =? 32) || (c =? 160) || (c =? 5760) ||
  ((8192 <=? c) && (c <=? 8202)) ||
  (c =? 8232) || (c =? 8233) || (c =? 8239) || (c =? 8287) ||
  (c =? 12288) || (c =? 65279).

Fixpoint trimStart (s : list N) : list N :=
  match s with
  | [] => []
  | c :: rest => if isWhiteSpace c then trimStart rest else s
  end.

Definition trimEnd (s : list N) : list N := rev (trimStart (rev s)).

(** [String.prototype.trim]. *)
Definition trim (s : list N) : list N := trimEnd (trimStart s).

(** [ToBoolean] on a string: only the empty string is falsy. *)
Definition truthy (s : list N) : bool :=
  match s with
  | [] => false
  | _ :: _ => true
  end.

(** [Number.prototype.toString] on an integer in the range of [Date.now()]
    (below 1e21 in magnitude, where JavaScript prints plain decimal digits). *)
Definition toString (n : Z) : list N :=
  lit (NilZero.string_of_int (Z.to_int n)).

(** ** Tasks *)

(** The objects [{ id, text, completed }] of [addTask]. *)
Record Task := mkTask {
  id : list N;
  text : list N;
  completed : bool;
}.

#[global] Instance Task_eq_dec : EqDecision Task.
Proof. solve_decision. Defined.

(** ** JSON values *)

(** What [JSON.parse] returns.  Members of an object are kept in the order of
    the text, duplicates included; a number keeps its literal (its conversion
    to a double is not modelled). *)
Inductive json :=
| JNull
| JBool (b : bool)
| JNumber (literal : list N)
| JString (s : list N)
| JArray (elements : list json)
| JObject (members : list (list N * json)).

(** *** [JSON.stringify] *)

Definition hexDigit (d : N) : N := if d <? 10 then 48 + d else 87 + d.

Definition hex4 (c : N) : list N :=
  [hexDigit (c / 4096 mod 16); hexDigit (c / 256 mod 16);
   hexDigit (c / 16 mod 16); hexDigit (c mod 16)].

(** [\uXXXX], lower-case hexadecimal. *)
Definition unicodeEscape (c : N) : list N := 92 :: 117 :: hex4 c.

Definition isHighSurrogate (c : N) : bool := (55296 <=? c) && (c <=? 56319).
Definition isLowSurrogate (c : N) : bool := (56320 <=? c) && (c <=? 57343).

(** One code unit that is not the first half of a surrogate pair. *)
Definition quoteUnit (c : N) : list N :=
  if c =? 8 then [92; 98]
  else if c =? 9 then [92; 116]
  else if c =? 10 then [92; 110]
  else if c =? 12 then [92; 102]
  else if c =? 13 then [92; 114]
  else if c =? 34 then [92; 34]
  else if c =? 92 then [92; 92]
  else if (c <? 32) || isLowSurrogate c || isHighSurrogate c then unicodeEscape c
  else [c].

(** The body of [QuoteJSONString]: the string is read by code points, a
    well-formed surrogate pair is copied, a lone surrogate is escaped. *)
Fixpoint quoteBody (s : list N) : list N :=
  match s with
  | [] => []
  | c :: rest =>
      if isHighSurrogate c then
        match rest with
        | d :: rest' =>
            if isLowSurrogate d then c :: d :: quoteBody rest'
            else unicodeEscape c ++ quoteBody rest
        | [] => unicodeEscape c
        end
      else quoteUnit c ++ quoteBody rest
  end.

Definition quote (s : list N) : list N := 34 :: quoteBody s ++ [34].

Fixpoint joinComma (parts : list (list N)) : list N :=
  match parts with
  | [] => []
  | [p] => p
  | p :: rest => p ++ 44 :: joinComma rest
  end.

(** [JSON.stringify(value)] with no replacer and no indentation. *)
Fixpoint stringify (v : json) : list N :=
  match v with
  | JNull => lit "null"
  | JBool true => lit "true"
  | JBool false => lit "false"
  | JNumber n => n
  | JString s => quote s
  | JArray vs => 91 :: joinComma (map stringify vs) ++ [93]
  | JObject ms =>
      123 :: joinComma (map (fun m => quote (fst m) ++ 58 :: stringify (snd m)) ms)
          ++ [125]
  end.

(** *** [JSON.parse]: the lexer *)

Inductive token :=
| TLBrace | TRBrace | TLBracket | TRBracket | TColon | TComma
| TString (s : list N)
| TNumber (literal : list N)
| TTrue | TFalse | TNull.

(** JSON white space: TAB, LF, CR, SP (narrower than [isWhiteSpace]). *)
Definition isJsonWs (c : N) : bool :=
  (c =? 9) || (c =? 10) || (c =? 13) || (c =? 32).

Definition isDigit (c : N) : bool := (48 <=? c) && (c <=? 57).

(** Characters of numbers and of the literals [true], [false], [null]. *)
Definition isWordChar (c : N) : bool :=
  isDigit c || ((97 <=? c) && (c <=? 122)) ||
  (c =? 43) || (c =? 45) || (c =? 46) || (c =? 69).

Definition hexValue (c : N) : option N :=
  if isDigit c then Some (c - 48)
  else if (97 <=? c) && (c <=? 102) then Some (c - 87)
  else if (65 <=? c) && (c <=? 70) then Some (c - 55)
  else None.

Definition unhex4 (a b c d : N) : option N :=
  match hexValue a, hexValue b, hexValue c, hexValue d with
  | Some x, Some y, Some z, Some w => Some (((x * 16 + y) * 16 + z) * 16 + w)
  | _, _, _, _ => None
  end.

(** The single-character escapes after a backslash. *)
Definition unescape (e : N) : option N :=
  if e =? 34 then Some 34
  else if e =? 92 then Some 92
  else if e =? 47 then Some 47
  else if e =? 98 then Some 8
  else if e =? 102 then Some 12
  else if e =? 110 then Some 10
  else if e =? 114 then Some 13
  else if e =? 116 then Some 9
  else None.

Fixpoint skipDigits (s : list N) : list N :=
  match s with
  | [] => []
  | c :: rest => if isDigit c then skipDigits rest else s
  end.

(** One or more digits; what follows them. *)
Definition digits1 (s : list N) : option (list N) :=
  match s with
  | c :: rest => if isDigit c then Some (skipDigits rest) else None
  | [] => None
  end.

(** The JSON number grammar: an optional minus sign; then a single zero, or
    a non-zero digit and any digits; then optionally a dot and one or more
    digits; then optionally [e] or [E], an optional sign and one or more
    digits. *)
Definition validNumber (s : list N) : bool :=
  let s1 := match s with
            | c :: rest => if c =? 45 then rest else s
            | [] => s
            end in
  match s1 with
  | [] => false
  | c :: rest =>
      if isDigit c then
        let afterInt := if c =? 48 then rest else skipDigits rest in
        let afterFrac :=
          match afterInt with
          | d :: rest' => if d =? 46 then digits1 rest' else Some afterInt
          | [] => Some []
          end in
        match afterFrac with
        | None => false
        | Some [] => true
        | Some (e :: rest') =>
            if (e =? 101) || (e =? 69) then
              let afterSign :=
                match rest' with
                | sg :: rest'' => if (sg =? 43) || (sg =? 45) then rest'' else rest'
                | [] => []
                end in
              match digits1 afterSign with
              | Some [] => true
              | _ => false
              end
            else false
        end
      else false
  end.

(** A maximal run of word characters is one of the three literals or a
    number; anything else is a syntax error. *)
Definition wordToken (w : list N) : option token :=
  if bool_decide (w = lit "true") then Some TTrue
  else if bool_decide (w = lit "false") then Some TFalse
  else if bool_decide (w = lit "null") then Some TNull
  else if validNumber w then Some (TNumber w)
  else None.

Inductive mode :=
| Idle
| InString (acc : list N)
| InWord (acc : list N).

(** What a character does between tokens: the token it is (if any) and the
    mode it leaves the lexer in. *)
Definition idleStep (c : N) : option (option token * mode) :=
  if isJsonWs c then Some (None, Idle)
  else if c =? 34 then Some (None, InString [])
  else if c =? 123 then Some (Some TLBrace, Idle)
  else if c =? 125 then Some (Some TRBrace, Idle)
  else if c =? 91 then Some (Some TLBracket, Idle)
  else if c =? 93 then Some (Some TRBracket, Idle)
  else if c =? 58 then Some (Some TColon, Idle)
  else if c =? 44 then Some (Some TComma, Idle)
  else if isWordChar c then Some (None, InWord [c])
  else None.

Definition emit (t : option token) (ts : option (list token)) : option (list token) :=
  match t with
  | Some t' => cons t' <$> ts
  | None => ts
  end.

Fixpoint lex (m : mode) (s : list N) : option (list token) :=
  match m, s with
  | Idle, [] => Some []
  | Idle, c :: rest =>
      match idleStep c with
      | Some (t, m') => emit t (lex m' rest)
      | None => None
      end
  | InString _, [] => None
  | InString acc, c :: rest =>
      if c =? 34 then cons (TString acc) <$> lex Idle rest
      else if c =? 92 then
        match rest with
        | e :: rest' =>
            if e =? 117 then
              match rest' with
              | h1 :: h2 :: h3 :: h4 :: rest'' =>
                  match unhex4 h1 h2 h3 h4 with
                  | Some u => lex (InString (acc ++ [u])) rest''
                  | None => None
                  end
              | _ => None
              end
            else
              match unescape e with
              | Some u => lex (InString (acc ++ [u])) rest'
              | None => None
              end
        | [] => None
        end
      else if c <? 32 then None
      else lex (InString (acc ++ [c])) rest
  | InWord acc, [] => (fun t => [t]) <$> wordToken acc
  | InWord acc, c :: rest =>
      if isWordChar c then lex (InWord (acc ++ [c])) rest
      else
        match wordToken acc, idleStep c with
        | Some t, Some (t', m') => cons t <$> emit t' (lex m' rest)
        | _, _ => None
        end
  end.

(** *** [JSON.parse]: the parser, a pushdown automaton over the tokens *)

(** An enclosing container that waits for the value being read. *)
Inductive frame :=
| FArray (done : list json)
| FObject (done : list (list N * json)) (key : list N).

Inductive pstate :=
| SValue (stack : list frame)
| SArrayStart (stack : list frame)
| SObjectStart (stack : list frame)
| SKey (done : list (list N * json)) (stack : list frame)
| SColon (done : list (list N * json)) (key : list N) (stack : list frame)
| SAfter (v : json) (stack : list frame).

Definition startValue (t : token) (stack : list frame) : option pstate :=
  match t with
  | TString s => Some (SAfter (JString s) stack)
  | TNumber n => Some (SAfter (JNumber n) stack)
  | TTrue => Some (SAfter (JBool true) stack)
  | TFalse => Some (SAfter (JBool false) stack)
  | TNull => Some (SAfter JNull stack)
  | TLBracket => Some (SArrayStart stack)
  | TLBrace => Some (SObjectStart stack)
  | _ => None
  end.

Definition pstep (st : pstate) (t : token) : option pstate :=
  match st, t with
  | SValue stack, _ => startValue t stack
  | SArrayStart stack, TRBracket => Some (SAfter (JArray []) stack)
  | SArrayStart stack, _ => startValue t (FArray [] :: stack)
  | SObjectStart stack, TRBrace => Some (SAfter (JObject []) stack)
  | SObjectStart stack, TString k => Some (SColon [] k stack)
  | SKey done stack, TString k => Some (SColon done k stack)
  | SColon done k stack, TColon => Some (SValue (FObject done k :: stack))
  | SAfter v (FArray done :: stack), TComma =>
      Some (SValue (FArray (done ++ [v]) :: stack))
  | SAfter v (FArray done :: stack), TRBracket =>
      Some (SAfter (JArray (done ++ [v])) stack)
  | SAfter v (FObject done k :: stack), TComma =>
      Some (SKey (done ++ [(k, v)]) stack)
  | SAfter v (FObject done k :: stack), TRBrace =>
      Some (SAfter (JObject (done ++ [(k, v)])) stack)
  | _, _ => None
  end.

Fixpoint prun (st : pstate) (ts : list token) : option json :=
  match ts with
  | [] => match st with
          | SAfter v [] => Some v
          | _ => None
          end
  | t :: rest => match pstep st t with
                 | Some st' => prun st' rest
                 | None => None
                 end
  end.

(** [JSON.parse(text)] with no reviver; [None] is the [SyntaxError]. *)
Definition JSON_parse (s : list N) : option json :=
  match lex Idle s with
  | Some ts => prun (SValue []) ts
  | None => None
  end.

(** *** Task lists as JSON values *)

Definition taskToJson (t : Task) : json :=
  JObject [(lit "id", JString (id t));
           (lit "text", JString (text t));
           (lit "completed", JBool (completed t))].

Definition tasksToJson (l : list Task) : json := JArray (map taskToJson l).

(** Property lookup on a parsed object: of two members with one key the
    later one is the property's value. *)
Fixpoint getProp (k : list N) (ms : list (list N * json)) : option json :=
  match ms with
  | [] => None
  | (k', v) :: rest =>
      match getProp k rest with
      | Some v' => Some v'
      | None => if bool_decide (k' = k) then Some v else None
      end
  end.

Definition isTaskKey (k : list N) : bool :=
  bool_decide (k = lit "id") || bool_decide (k = lit "text") ||
  bool_decide (k = lit "completed").

(** A parsed value seen as a [Task]: an object whose properties are exactly
    [id] (a string), [text] (a string) and [completed] (a boolean).  A [Task]
    does not keep the order in which the object lists its properties:
    [taskToJson] writes them as the objects that [addTask] creates have
    them, while the code writes a loaded object back in the order it was
    stored in.  Statements on the text of a save therefore either start from
    a text that this component wrote, or speak of the list the text parses
    to. *)
Definition asTask (v : json) : option Task :=
  match v with
  | JObject ms =>
      if forallb (fun m => isTaskKey (fst m)) ms then
        match getProp (lit "id") ms, getProp (lit "text") ms,
              getProp (lit "completed") ms with
        | Some (JString i), Some (JString t), Some (JBool c) => Some (mkTask i t c)
        | _, _, _ => None
        end
      else None
  | _ => None
  end.

Definition asTaskList (v : json) : option (list Task) :=
  match v with
  | JArray vs => mapM asTask vs
  | _ => None
  end.

(** ** The host: storage, animated values, console *)

(** The [AsyncStorage] slot under the key ['tasks'].  [failing] makes its
    promises reject, which is what the two [catch] blocks are for. *)
Record Storage := mkStorage {
  slot : option (list N);
  failing : bool;
}.

(** [AsyncStorage.getItem('tasks')]: [None] is a rejected promise,
    [Some None] resolves to [null]. *)
Definition getItem (s : Storage) : option (option (list N)) :=
  if failing s then None else Some (slot s).

(** [AsyncStorage.setItem('tasks', value)]. *)
Definition setItem (value : list N) (s : Storage) : option Storage :=
  if failing s then None else Some (mkStorage (Some value) false).

(** The closure passed to [.start(...)] in [deleteTask]; it captures
    [taskId] and the [newTaskAnimations] object of that call. *)
Inductive Callback :=
| RemoveTask (taskId : list N) (newTaskAnimations : gmap (list N) nat).

(** A started [Animated.timing(value, { toValue, duration })].  [value] is
    the address of the [Animated.Value] it drives. *)
Record Timing := mkTiming {
  value : nat;
  toValue : Z;
  duration : N;
  elapsed : N;
  onFinish : option Callback;
}.

(** ** The component state

    The four [useState] variables, and the host state the component reads
    and writes.  [tasksIdentity] stands for the identity of the array held in
    [tasks]: React compares the dependency [[tasks]] of the save effect with
    [Object.is], and every [setTasks] of the source passes a freshly
    allocated array (a spread, [map], [filter] or [JSON.parse]).

    [taskAnimations] maps a task id to the address of an [Animated.Value] in
    [values]; a cell holds the value at rest (the eased values a running
    timing writes between its ends are floating-point and not modelled). *)
Record State := mkState {
  task : list N;
  tasks : list Task;
  tasksIdentity : nat;
  editingId : option (list N);
  taskAnimations : gmap (list N) nat;
  values : list Z;
  timings : list Timing;
  storage : Storage;
  setItemCalls : list (list N);
  pendingRead : option (option (option (list N)));
  console : list (list N);
}.

Definition setTask (v : list N) (st : State) : State :=
  mkState v (tasks st) (tasksIdentity st) (editingId st) (taskAnimations st)
          (values st) (timings st) (storage st) (setItemCalls st)
          (pendingRead st) (console st).

(** [setTasks(updater)]: the new array has a new identity. *)
Definition setTasks (f : list Task -> list Task) (st : State) : State :=
  mkState (task st) (f (tasks st)) (S (tasksIdentity st)) (editingId st)
          (taskAnimations st) (values st) (timings st) (storage st)
          (setItemCalls st) (pendingRead st) (console st).

Definition setEditingId (v : option (list N)) (st : State) : State :=
  mkState (task st) (tasks st) (tasksIdentity st) v (taskAnimations st)
          (values st) (timings st) (storage st) (setItemCalls st)
          (pendingRead st) (console st).

Definition setTaskAnimations (v : gmap (list N) nat) (st : State) : State :=
  mkState (task st) (tasks st) (tasksIdentity st) (editingId st) v
          (values st) (timings st) (storage st) (setItemCalls st)
          (pendingRead st) (console st).

Definition withValues (v : list Z) (st : State) : State :=
  mkState (task st) (tasks st) (tasksIdentity st) (editingId st)
          (taskAnimations st) v (timings st) (storage st) (setItemCalls st)
          (pendingRead st) (console st).

Definition withTimings (v : list Timing) (st : State) : State :=
  mkState (task st) (tasks st) (tasksIdentity st) (editingId st)
          (taskAnimations st) (values st) v (storage st) (setItemCalls st)
          (pendingRead st) (console st).

Definition withPendingRead (v : option (option (option (list N)))) (st : State)
  : State :=
  mkState (task st) (tasks st) (tasksIdentity st) (editingId st)
          (taskAnimations st) (values st) (timings st) (storage st)
          (setItemCalls st) v (console st).

(** [console.error(message, e)]. *)
Definition console_error (message : list N) (st : State) : State :=
  mkState (task st) (tasks st) (tasksIdentity st) (editingId st)
          (taskAnimations st) (values st) (timings st) (storage st)
          (setItemCalls st) (pendingRead st) (console st ++ [message]).

(** [new Animated.Value(v)]: a fresh cell, and its address. *)
Definition newAnimatedValue (v : Z) (st : State) : nat * State :=
  (length (values st), withValues (values st ++ [v]) st).

(** [Animated.timing(value, { toValue, duration }).start(callback)]. *)
Definition startTiming (a : nat) (target : Z) (d : N) (cb : option Callback)
    (st : State) : State :=
  withTimings (timings st ++ [mkTiming a target d 0 cb]) st.

(** ** The effects *)

(** The save effect: [AsyncStorage.setItem('tasks', JSON.stringify(tasks))]
    inside [try]/[catch].  [setItemCalls] records every call. *)
Definition saveTasksToStorage (st : State) : State :=
  let payload := stringify (tasksToJson (tasks st)) in
  let st1 :=
    mkState (task st) (tasks st) (tasksIdentity st) (editingId st)
            (taskAnimations st) (values st) (timings st) (storage st)
            (setItemCalls st ++ [payload]) (pendingRead st) (console st) in
  match setItem payload (storage st) with
  | Some s =>
      mkState (task st1) (tasks st1) (tasksIdentity st1) (editingId st1)
              (taskAnimations st1) (values st1) (timings st1) s
              (setItemCalls st1) (pendingRead st1) (console st1)
  | None => console_error (lit "Failed to save tasks to storage") st1
  end.

(** A render after an update: the save effect, whose dependency list is
    [[tasks]], runs when the array in [tasks] is not the one of the previous
    render.  This is the part of a render that the source file spells out.
    What react-native does besides, to the timing of an [Animated.Value] that
    no row draws any more, is not in [render] but in [commit] below;
    [mayEndFadeEarly] tells the states and events where the two differ. *)
Definition render (before after : State) : State :=
  if Nat.eqb (tasksIdentity before) (tasksIdentity after) then after
  else saveTasksToStorage after.

(** An event handler (or callback) of the current render runs, then React
    renders. *)
Definition dispatch (handler : State -> State) (st : State) : State :=
  render st (handler st).

(** The first render and its effects, in the order of the source: the load
    effect calls [getItem] and suspends at [await]; the save effect then
    runs with the initial [tasks = []].  The storage serves requests in the
    order they were issued, so the read sees the slot as it was.  The outcome
    of the save is recorded here and that of the read at [LoadSettled]: on a
    storage that fails, [console] so lists the line of the save before the
    line of the load, whereas the rejections arrive, and are logged, in the
    order of the calls. *)
Definition mount (s : Storage) : State :=
  saveTasksToStorage
    (mkState [] [] 0 None ∅ [] [] s [] (Some (getItem s)) []).

(** [loadTasksFromStorage] from its [await] on: the promise of [getItem] has
    settled.  The result is [None] when [JSON.parse] returned a value that is
    not an array of task objects: the component stores that value in [tasks]
    all the same and logs nothing, and this model, whose [tasks] is a
    [list Task], has no state for it.  [loadBranch] below gives the branch
    taken for every stored text. *)
Definition loadTasksFromStorage (st : State) : option State :=
  match pendingRead st with
  | None => Some st
  | Some settled =>
      let st0 := withPendingRead None st in
      match settled with
      | None =>
          Some (console_error (lit "Failed to load tasks from storage") st0)
      | Some None => Some st0
      | Some (Some savedTasks) =>
          if truthy savedTasks then
            match JSON_parse savedTasks with
            | None =>
                Some (console_error (lit "Failed to load tasks from storage") st0)
            | Some v =>
                match asTaskList v with
                | Some l => Some (dispatch (setTasks (fun _ => l)) st0)
                | None => None
                end
            end
          else Some st0
      end
  end.

(** ** The handlers *)

(** [addTask]; [now] is what [Date.now()] returns during the call. *)
Definition addTask (now : Z) (st : State) : State :=
  if truthy (trim (task st)) then
    let newTask := mkTask (toString now) (task st) false in
    let st1 := setTasks (fun prevTasks => prevTasks ++ [newTask]) st in
    let '(v, st2) := newAnimatedValue 0 st1 in
    let newTaskAnimations := <[id newTask := v]> (taskAnimations st) in
    let st3 := setTaskAnimations newTaskAnimations st2 in
    let st4 := startTiming v 1 500 None st3 in
    setTask [] st4
  else st.

(** [Array.prototype.findIndex]: [-1] when no element satisfies [p]. *)
Fixpoint findIndex (p : Task -> bool) (l : list Task) : Z :=
  match l with
  | [] => (-1)%Z
  | t :: rest =>
      if p t then 0%Z
      else let i := findIndex p rest in
           if (i <? 0)%Z then (-1)%Z else (i + 1)%Z
  end.

Definition deleteTask (taskId : list N) (st : State) : State :=
  let taskIndex := findIndex (fun t => bool_decide (id t = taskId)) (tasks st) in
  if (0 <=? taskIndex)%Z then
    let '(v, st1) := newAnimatedValue 1 st in
    let newTaskAnimations := <[taskId := v]> (taskAnimations st) in
    let st2 := setTaskAnimations newTaskAnimations st1 in
    startTiming v 0 500 (Some (RemoveTask taskId newTaskAnimations)) st2
  else st.

(** The body of the callback of [deleteTask]. *)
Definition runCallback (cb : Callback) (st : State) : State :=
  match cb with
  | RemoveTask taskId newTaskAnimations =>
      let st1 :=
        setTasks (fun prevTasks => filter (fun item => id item ≠ taskId) prevTasks) st in
      let updatedTaskAnimations := delete taskId newTaskAnimations in
      setTaskAnimations updatedTaskAnimations st1
  end.

Definition toggleComplete (taskId : list N) (st : State) : State :=
  setTasks (fun prevTasks =>
    map (fun t => if bool_decide (id t = taskId)
                  then mkTask (id t) (text t) (negb (completed t))
                  else t) prevTasks) st.

Definition updateTask (taskId newText : list N) (st : State) : State :=
  setTasks (fun prevTasks =>
    map (fun t => if bool_decide (id t = taskId)
                  then mkTask (id t) newText (completed t)
                  else t) prevTasks) st.

Definition handleBlur (st : State) : State := setEditingId None st.

(** ** Time *)

(** A timing reaches its end: the value is at [toValue], and the callback
    given to [start], if any, runs and React renders. *)
Definition finishTiming (st : State) (t : Timing) : State :=
  let st1 := withValues (<[value t := toValue t]> (values st)) st in
  match onFinish t with
  | Some cb => dispatch (runCallback cb) st1
  | None => st1
  end.

Definition age (d : N) (t : Timing) : Timing :=
  mkTiming (value t) (toValue t) (duration t) (elapsed t + d) (onFinish t).

Definition isFinished (t : Timing) : bool := duration t <=? elapsed t.

(** [d] units of time pass: the timings that reach their duration finish, in
    the order they were started. *)
Definition tick (d : N) (st : State) : State :=
  let aged := map (age d) (timings st) in
  foldl finishTiming
        (withTimings (List.filter (fun t => negb (isFinished t)) aged) st)
        (List.filter isFinished aged).

(** ** Events *)

Inductive Event :=
| ChangeText (newText : list N)            (* onChangeText of the input *)
| PressAdd (now : Z)                       (* onPress={addTask} *)
| PressItem (taskId : list N)              (* toggleComplete(item.id) *)
| PressEdit (taskId : list N)              (* setEditingId(item.id) *)
| EditText (taskId newText : list N)       (* updateTask(item.id, text) *)
| Blur                                     (* onBlur={handleBlur} *)
| PressDelete (taskId : list N)            (* deleteTask(item.id) *)
| Tick (d : N)                             (* time passes *)
| LoadSettled                              (* the promise of getItem settles *)
| StorageFault (b : bool).                 (* the storage starts or stops failing *)

Definition withStorageFault (b : bool) (st : State) : State :=
  mkState (task st) (tasks st) (tasksIdentity st) (editingId st)
          (taskAnimations st) (values st) (timings st)
          (mkStorage (slot (storage st)) b) (setItemCalls st)
          (pendingRead st) (console st).

Definition step (e : Event) (st : State) : option State :=
  match e with
  | ChangeText newText => Some (dispatch (setTask newText) st)
  | PressAdd now => Some (dispatch (addTask now) st)
  | PressItem taskId => Some (dispatch (toggleComplete taskId) st)
  | PressEdit taskId => Some (dispatch (setEditingId (Some taskId)) st)
  | EditText taskId newText => Some (dispatch (updateTask taskId newText) st)
  | Blur => Some (dispatch handleBlur st)
  | PressDelete taskId => Some (dispatch (deleteTask taskId) st)
  | Tick d => Some (tick d st)
  | LoadSettled => loadTasksFromStorage st
  | StorageFault b => Some (withStorageFault b st)
  end.

Fixpoint run (es : list Event) (st : State) : option State :=
  match es with
  | [] => Some st
  | e :: rest =>
      match step e st with
      | Some st' => run rest st'
      | None => None
      end
  end.

(** ** Renders that take a value off the screen

    [renderItem] gives a row the value [taskAnimations[item.id]] when the map
    has one, and a value of its own otherwise (l.156).  react-native attaches
    the value to the view of the row.  When a render leaves a value without a
    view, [AnimatedValue.__detach] calls [stopAnimation]: the timing on the
    value ends there, and the callback given to [start] is called with
    [{finished: false}].  The callback of [deleteTask] does not look at
    [finished]. *)

(** The values of the map that the rows draw. *)
Definition drawn (st : State) : list nat :=
  omap (fun item => taskAnimations st !! id item) (tasks st).

(** A timing whose value was drawn before a render and is not after it. *)
Definition detached (before after : State) (t : Timing) : bool :=
  bool_decide (value t ∈ drawn before) && negb (bool_decide (value t ∈ drawn after)).

(** A render with what follows from it: the save effect; then the timings
    on the values that left the screen are stopped and their callbacks run,
    each followed by a render of its own.  A stopped timing is gone, so
    [fuel] need not exceed the number of timings ([commit_fuel]). *)
Fixpoint commit (fuel : nat) (before after : State) : State :=
  let st1 := render before after in
  match fuel with
  | O => st1
  | S fuel' =>
      foldl (fun st t =>
               match onFinish t with
               | Some cb => commit fuel' st (runCallback cb st)
               | None => st
               end)
            (withTimings
               (List.filter (fun t => negb (detached before st1 t)) (timings st1)) st1)
            (List.filter (detached before st1) (timings st1))
  end.

(** The callback of a stopped timing, and the render after it. *)
Definition runStopped (fuel : nat) (st : State) (t : Timing) : State :=
  match onFinish t with
  | Some cb => commit fuel st (runCallback cb st)
  | None => st
  end.

(** An event handler (or callback) runs, then React renders and
    react-native stops what left the screen. *)
Definition dispatchStop (handler : State -> State) (st : State) : State :=
  let after := handler st in
  commit (length (timings after)) st after.

(** [finishTiming], [tick] and [loadTasksFromStorage] with these renders. *)
Definition finishTimingStop (st : State) (t : Timing) : State :=
  let st1 := withValues (<[value t := toValue t]> (values st)) st in
  match onFinish t with
  | Some cb => dispatchStop (runCallback cb) st1
  | None => st1
  end.

Definition tickStop (d : N) (st : State) : State :=
  let aged := map (age d) (timings st) in
  foldl finishTimingStop
        (withTimings (List.filter (fun t => negb (isFinished t)) aged) st)
        (List.filter isFinished aged).

Definition loadTasksFromStorageStop (st : State) : option State :=
  match pendingRead st with
  | None => Some st
  | Some settled =>
      let st0 := withPendingRead None st in
      match settled with
      | None =>
          Some (console_error (lit "Failed to load tasks from storage") st0)
      | Some None => Some st0
      | Some (Some savedTasks) =>
          if truthy savedTasks then
            match JSON_parse savedTasks with
            | None =>
                Some (console_error (lit "Failed to load tasks from storage") st0)
            | Some v =>
                match asTaskList v with
                | Some l => Some (dispatchStop (setTasks (fun _ => l)) st0)
                | None => None
                end
            end
          else Some st0
      end
  end.

(** The events once more, with the renders that stop timings. *)
Definition stepStop (e : Event) (st : State) : option State :=
  match e with
  | ChangeText newText => Some (dispatchStop (setTask newText) st)
  | PressAdd now => Some (dispatchStop (addTask now) st)
  | PressItem taskId => Some (dispatchStop (toggleComplete taskId) st)
  | PressEdit taskId => Some (dispatchStop (setEditingId (Some taskId)) st)
  | EditText taskId newText => Some (dispatchStop (updateTask taskId newText) st)
  | Blur => Some (dispatchStop handleBlur st)
  | PressDelete taskId => Some (dispatchStop (deleteTask taskId) st)
  | Tick d => Some (tickStop d st)
  | LoadSettled => loadTasksFromStorageStop st
  | StorageFault b => Some (withStorageFault b st)
  end.

Fixpoint runStop (es : list Event) (st : State) : option State :=
  match es with
  | [] => Some st
  | e :: rest =>
      match stepStop e st with
      | Some st' => runStop rest st'
      | None => None
      end
  end.

(** * Vocabulary of the statements *)

(** What [toggleComplete] and [updateTask] put in the place of a task. *)
Definition toggled (t : Task) : Task := mkTask (id t) (text t) (negb (completed t)).

Definition retexted (newText : list N) (t : Task) : Task :=
  mkTask (id t) newText (completed t).

Definition hasCallback (t : Timing) : bool :=
  match onFinish t with
  | Some _ => true
  | None => false
  end.

(** The branch that [loadTasksFromStorage] takes once the read has settled
    (l.46-52), for every outcome of the read: the read rejected and [catch]
    logs; [savedTasks] is [null] or the empty string and the guard of l.47
    fails; [JSON.parse] throws and [catch] logs; or [JSON.parse] returns [v]
    and l.48 calls [setTasks(v)], whatever [v] is. *)
Inductive LoadBranch :=
| NoReadPending
| ReadRejected
| NothingStored
| ParseThrows
| CallsSetTasks (v : json).

Definition loadBranch (st : State) : LoadBranch :=
  match pendingRead st with
  | None => NoReadPending
  | Some None => ReadRejected
  | Some (Some None) => NothingStored
  | Some (Some (Some savedTasks)) =>
      if truthy savedTasks then
        match JSON_parse savedTasks with
        | Some v => CallsSetTasks v
        | None => ParseThrows
        end
      else NothingStored
  end.

(** The text [payload] is a serialization of the list [l]: [JSON.parse]
    reads the tasks of [l] back from it, in order. *)
Definition serializes (payload : list N) (l : list Task) : Prop :=
  JSON_parse payload ≫= asTaskList = Some l.

(** What an event adds to the record of [setItem] calls: [calls], the last
    of them a serialization of the task list of the state reached; with no
    call the task list is what it was. *)
Definition saved (st st' : State) (calls : list (list N)) : Prop :=
  setItemCalls st' = setItemCalls st ++ calls ∧
  match last calls with
  | Some payload => serializes payload (tasks st')
  | None => tasks st' = tasks st
  end.

(** Whether the handler or callback of an event calls [setTasks] in a state:
    an add of text that is not blank, a toggle, a text edit, a tick at which
    a timing with a callback reaches its end, and a load whose [JSON.parse]
    returns. *)
Definition setsTasks (e : Event) (st : State) : bool :=
  match e with
  | PressAdd _ => truthy (trim (task st))
  | PressItem _ => true
  | EditText _ _ => true
  | Tick d => existsb hasCallback (List.filter isFinished (map (age d) (timings st)))
  | LoadSettled =>
      match loadBranch st with
      | CallsSetTasks _ => true
      | _ => false
      end
  | ChangeText _ | PressEdit _ | Blur | PressDelete _ | StorageFault _ => false
  end.

(** Whether an event in a state can make react-native end the fade of a
    deletion before its time.  When a render makes a row draw another
    [Animated.Value], or takes the row away, the timing on the value it drew
    is stopped and the callback given to [start] runs at once; the callback of
    [deleteTask] does not look at [finished] and removes the task.  The
    renders that can do so follow a press on delete, an add or the load while
    a deletion fades, and the end of a fade while another one is under way.
    [render], and with it [step], leaves such stops out; [commit] and
    [stepStop] have them.  Where this is [false] the two agree but for the
    timings that go on. *)
Definition mayEndFadeEarly (e : Event) (st : State) : bool :=
  match e with
  | PressAdd _ | PressDelete _ | LoadSettled => existsb hasCallback (timings st)
  | Tick _ => (1 <? length (List.filter hasCallback (timings st)))%nat
  | ChangeText _ | PressItem _ | PressEdit _ | EditText _ _ | Blur
  | StorageFault _ => false
  end.

(** Whether the render after a handler takes a value with a running
    deletion fade off the screen, so that the callback of the fade runs. *)
Definition stopsFade (handler : State -> State) (st : State) : bool :=
  existsb (fun t => hasCallback t && detached st (handler st) t)
          (timings (handler st)).

(** Whether [setTasks] is called in the course of an event when the stops
    are followed: by the handler or callback of the event ([setsTasks]), or
    by the callback of a fade that the render after the handler stops. *)
Definition setsTasksStop (e : Event) (st : State) : bool :=
  setsTasks e st ||
  match e with
  | ChangeText newText => stopsFade (setTask newText) st
  | PressAdd now => stopsFade (addTask now) st
  | PressItem taskId => stopsFade (toggleComplete taskId) st
  | PressEdit taskId => stopsFade (setEditingId (Some taskId)) st
  | EditText taskId newText => stopsFade (updateTask taskId newText) st
  | Blur => stopsFade handleBlur st
  | PressDelete taskId => stopsFade (deleteTask taskId) st
  | Tick _ | LoadSettled | StorageFault _ => false
  end.

Definition ticks (ds : list N) (st : State) : State :=
  foldl (fun s d => tick d s) st ds.

Definition total (ds : list N) : N := foldr N.add 0 ds.

(** A state in which the fade started by [deleteTask taskId] has run for
    [e] units and is the only timing with a callback. *)
Definition fading (taskId : list N) (anims : gmap (list N) nat) (l : list Task)
    (e : N) (st : State) : Prop :=
  tasks st = l ∧
  ∃ pre v, timings st = pre ++ [mkTiming v 0 500 e (Some (RemoveTask taskId anims))] ∧
           Forall (fun t => onFinish t = None) pre.

(** The tokens of a serialized task. *)
Definition taskTokens (t : Task) : list token :=
  [TLBrace; TString (lit "id"); TColon; TString (id t); TComma;
   TString (lit "text"); TColon; TString (text t); TComma;
   TString (lit "completed"); TColon;
   if completed t then TTrue else TFalse; TRBrace].

Fixpoint joinTokens (parts : list (list token)) : list token :=
  match parts with
  | [] => []
  | [p] => p
  | p :: rest => p ++ TComma :: joinTokens rest
  end.

(** The tokens of a serialized task list. *)
Definition tasksTokens (l : list Task) : list token :=
  TLBracket :: joinTokens (map taskTokens l) ++ [TRBracket].

(** The fixed parts of the text of a serialized task. *)
Definition seg_id : list N := jsonText "{'id':'".
Definition seg_text : list N := jsonText ",'text':'".
Definition seg_completed (c : bool) : list N :=
  if c then jsonText ",'completed':true}" else jsonText ",'completed':false}".

(** A text without a code unit that is not white space. *)
Definition isBlank (s : list N) : bool := forallb isWhiteSpace s.

(** What [renderItem] shows of one task: the animated value that drives
    opacity and scale ([taskAnimations[item.id] || new Animated.Value(1)],
    read at rest), whether the task is drawn as a [TextInput]
    ([editingId === item.id]), the text, and whether the [completedTask]
    style applies. *)
Record ItemView := mkItemView {
  itemAnimation : option Z;
  itemIsInput : bool;
  itemText : list N;
  itemCompletedStyle : bool;
}.

Definition renderItem (st : State) (item : Task) : ItemView :=
  let taskAnimation :=
    match taskAnimations st !! id item with
    | Some a => values st !! a
    | None => Some 1%Z
    end in
  mkItemView taskAnimation
             (bool_decide (editingId st = Some (id item)))
             (text item)
             (completed item).

(** [FlatList] with [data={tasks}]. *)
Definition renderList (st : State) : list ItemView :=
  map (renderItem st) (tasks st).

(** The storage answers and its slot holds the serialized task list. *)
Definition inSync (st : State) : Prop :=
  failing (storage st) = false ∧
  slot (storage st) = Some (stringify (tasksToJson (tasks st))).

Definition isFault (e : Event) : bool :=
  match e with
  | StorageFault _ => true
  | _ => false
  end.

(** The state without the storage, the record of [setItem] calls and the
    console: all that a render reads. *)
Definition uiState (st : State) :=
  (task st, tasks st, tasksIdentity st, editingId st, taskAnimations st,
   values st, timings st, pendingRead st).

(** The id that an event puts at the end of the list, if it adds a task. *)
Definition addedId (e : Event) : list (list N) :=
  match e with
  | PressAdd now => [toString now]
  | _ => []
  end.

(** From [st] to [st'] the storage is untouched, [setItem] was called with
    [calls], and one failed save was logged for each call. *)
Definition failedSaves (st st' : State) (calls : list (list N)) : Prop :=
  storage st' = storage st ∧
  setItemCalls st' = setItemCalls st ++ calls ∧
  console st' = console st
                ++ replicate (length calls) (lit "Failed to save tasks to storage").

(** Two states to try statements on: after startup on an empty storage and
    the load, one task "A" added at clock 17; then a second task "B" added at
    clock 18. *)
Definition exampleOneTask : State :=
  dispatch (addTask 17)
    (dispatch (setTask (lit "A")) (withPendingRead None (mount (mkStorage None false)))).

Definition exampleTwoTasks : State :=
  dispatch (addTask 18) (dispatch (setTask (lit "B")) exampleOneTask).

(** * Properties *)

(** ** What a render leaves alone *)

Section Frames.
Implicit Types (st before after : State).

Lemma tasks_saveTasksToStorage st :
  tasks (saveTasksToStorage st) = tasks st.
Proof. unfold saveTasksToStorage. destruct (setItem _ _); reflexivity. Qed.

Lemma editingId_saveTasksToStorage st :
  editingId (saveTasksToStorage st) = editingId st.
Proof. unfold saveTasksToStorage. destruct (setItem _ _); reflexivity. Qed.

Lemma taskAnimations_saveTasksToStorage st :
  taskAnimations (saveTasksToStorage st) = taskAnimations st.
Proof. unfold saveTasksToStorage. destruct (setItem _ _); reflexivity. Qed.

Lemma timings_saveTasksToStorage st :
  timings (saveTasksToStorage st) = timings st.
Proof. unfold saveTasksToStorage. destruct (setItem _ _); reflexivity. Qed.

Lemma tasksIdentity_saveTasksToStorage st :
  tasksIdentity (saveTasksToStorage st) = tasksIdentity st.
Proof. unfold saveTasksToStorage. destruct (setItem _ _); reflexivity. Qed.

Lemma setItemCalls_saveTasksToStorage st :
  setItemCalls (saveTasksToStorage st)
  = setItemCalls st ++ [stringify (tasksToJson (tasks st))].
Proof. unfold saveTasksToStorage. destruct (setItem _ _); reflexivity. Qed.

Lemma tasks_render before after : tasks (render before after) = tasks after.
Proof.
  unfold render. destruct (Nat.eqb _ _); [reflexivity|].
  apply tasks_saveTasksToStorage.
Qed.

Lemma editingId_render before after :
  editingId (render before after) = editingId after.
Proof.
  unfold render. destruct (Nat.eqb _ _); [reflexivity|].
  apply editingId_saveTasksToStorage.
Qed.

Lemma taskAnimations_render before after :
  taskAnimations (render before after) = taskAnimations after.
Proof.
  unfold render. destruct (Nat.eqb _ _); [reflexivity|].
  apply taskAnimations_saveTasksToStorage.
Qed.

Lemma timings_render before after :
  timings (render before after) = timings after.
Proof.
  unfold render. destruct (Nat.eqb _ _); [reflexivity|].
  apply timings_saveTasksToStorage.
Qed.

Lemma render_same st : render st st = st.
Proof. unfold render. now rewrite Nat.eqb_refl. Qed.

(** A render after [setTasks] runs the save effect. *)
Lemma render_changed before after :
  tasksIdentity after ≠ tasksIdentity before →
  render before after = saveTasksToStorage after.
Proof.
  intros Hne. unfold render.
  destruct (Nat.eqb_spec (tasksIdentity before) (tasksIdentity after)); congruence.
Qed.

Lemma render_unchanged before after :
  tasksIdentity after = tasksIdentity before →
  render before after = after.
Proof. intros Heq. unfold render. now rewrite Heq, Nat.eqb_refl. Qed.
End Frames.

(** ** Lists *)

Lemma lookup_map {A B} (f : A → B) (l : list A) (i : nat) :
  map f l !! i = f <$> (l !! i).
Proof.
  revert i. induction l as [|a l IH]; intros [|i]; simpl; try reflexivity.
  apply IH.
Qed.

Lemma trimStart_blank (s : list N) :
  Forall (fun c => isWhiteSpace c = true) s → trimStart s = [].
Proof.
  induction 1 as [|c s Hc _ IH]; simpl; [reflexivity|]. now rewrite Hc.
Qed.

Lemma trim_blank (s : list N) :
  Forall (fun c => isWhiteSpace c = true) s → trim s = [].
Proof. intros H. unfold trim, trimEnd. now rewrite (trimStart_blank s H). Qed.

Lemma findIndex_lower (p : Task → bool) (l : list Task) :
  (-1 <= findIndex p l)%Z.
Proof.
  induction l as [|t l IH]; simpl; [lia|].
  destruct (p t); [lia|]. destruct (Z.ltb_spec (findIndex p l) 0); lia.
Qed.

(** [findIndex] finds an index exactly when some element satisfies [p]. *)
Lemma findIndex_found (p : Task → bool) (l : list Task) :
  (0 <= findIndex p l)%Z ↔ Exists (fun t => p t = true) l.
Proof.
  induction l as [|t l IH]; simpl.
  - split; [lia|]. intros H. inversion H.
  - destruct (p t) eqn:Hp.
    + split; [|lia]. intros _. now left.
    + destruct (Z.ltb_spec (findIndex p l) 0) as [Hlt|Hge].
      * split; [lia|]. intros H. inversion H; subst; [congruence|].
        apply IH in H1. lia.
      * split; [|lia]. intros _. right. apply IH. lia.
Qed.

Lemma findIndex_absent (taskId : list N) (l : list Task) :
  taskId ∉ map id l →
  findIndex (fun t => bool_decide (id t = taskId)) l = (-1)%Z.
Proof.
  intros Hnot.
  pose proof (findIndex_lower (fun t => bool_decide (id t = taskId)) l) as Hlow.
  destruct (Z.ltb_spec (findIndex (fun t => bool_decide (id t = taskId)) l) 0)
    as [Hlt|Hge]; [lia|].
  exfalso. apply Hnot.
  apply findIndex_found in Hge. apply Exists_exists in Hge.
  destruct Hge as (t & Hin & Hp). apply bool_decide_eq_true in Hp. subst taskId.
  apply list_elem_of_In, in_map. now apply list_elem_of_In.
Qed.

(** ** addTask *)

(** C1: with an input text whose trimmed value is not empty, [addTask]
    appends one task at the end of the list, with the given text, the id read
    from the clock and [completed = false]; the list is one longer and every
    task that was there is unchanged at its position. *)
Theorem addTask_appends (st : State) (now : Z) :
  trim (task st) ≠ [] →
  let st' := dispatch (addTask now) st in
  let newTask := mkTask (toString now) (task st) false in
  tasks st' = tasks st ++ [newTask] ∧
  length (tasks st') = S (length (tasks st)) ∧
  last (tasks st') = Some newTask ∧
  text newTask = task st ∧ completed newTask = false ∧
  ∀ i t, tasks st !! i = Some t → tasks st' !! i = Some t.
Proof.
  intros Hne st' newTask.
  assert (Htasks : tasks st' = tasks st ++ [newTask]).
  { subst st'. unfold dispatch. rewrite tasks_render. unfold addTask.
    destruct (trim (task st)) as [|c s]; [congruence|]. reflexivity. }
  rewrite Htasks. repeat split.
  - rewrite length_app. simpl. lia.
  - apply last_snoc.
  - intros i t Hi. now apply lookup_app_l_Some.
Qed.

Lemma addTask_appends_witness :
  let st := setTask (lit " Buy milk ") (mount (mkStorage None false)) in
  trim (task st) ≠ [] ∧
  tasks (dispatch (addTask 1700000000000) st)
  = tasks st ++ [mkTask (toString 1700000000000) (task st) false].
Proof.
  assert (H : trim (task (setTask (lit " Buy milk ") (mount (mkStorage None false)))) ≠ [])
    by (vm_compute; discriminate).
  split; [exact H|].
  exact (proj1 (addTask_appends _ 1700000000000 H)).
Defined.

(** C3: with an input text that is empty or all white space, [addTask]
    changes nothing: the task list, the input, the animation map, the
    storage slot and the record of [setItem] calls are what they were. *)
Theorem addTask_blank_noop (st : State) (now : Z) :
  Forall (fun c => isWhiteSpace c = true) (task st) →
  dispatch (addTask now) st = st.
Proof.
  intros Hblank. unfold dispatch, addTask.
  rewrite (trim_blank _ Hblank). simpl. apply render_same.
Qed.

Lemma addTask_blank_noop_witness :
  let st := setTask (lit "   ") (mount (mkStorage None false)) in
  Forall (fun c => isWhiteSpace c = true) (task st) ∧
  dispatch (addTask 1700000000000) st = st.
Proof.
  assert (H : Forall (fun c => isWhiteSpace c = true)
                (task (setTask (lit "   ") (mount (mkStorage None false)))))
    by (repeat constructor).
  split; [exact H|].
  exact (addTask_blank_noop _ 1700000000000 H).
Defined.

(** ** deleteTask on an id that is not there *)

(** C5: for an id that no task has, [deleteTask] changes nothing: task
    list, animation map, timings, storage and the record of [setItem] calls
    are what they were. *)
Theorem deleteTask_absent_noop (st : State) (taskId : list N) :
  taskId ∉ map id (tasks st) →
  dispatch (deleteTask taskId) st = st.
Proof.
  intros Hnot. unfold dispatch, deleteTask.
  rewrite (findIndex_absent _ _ Hnot). simpl. apply render_same.
Qed.

Lemma deleteTask_absent_noop_witness :
  let st := dispatch (addTask 17) (setTask (lit "A") (mount (mkStorage None false))) in
(lit "18" ∉ map id (tasks st)) ∧
  dispatch (deleteTask (lit "18")) st = st.
Proof.
  assert (H : lit "18" ∉ map id (tasks (dispatch (addTask 17)
                (setTask (lit "A") (mount (mkStorage None false))))))
    by (vm_compute; intros Hin; apply list_elem_of_In in Hin;
        destruct Hin as [Heq|[]]; discriminate Heq).
  split; [exact H|].
  exact (deleteTask_absent_noop _ _ H).
Defined.

(** ** toggleComplete and updateTask *)

Lemma tasks_toggleComplete (st : State) (taskId : list N) :
  tasks (dispatch (toggleComplete taskId) st)
  = map (fun t => if bool_decide (id t = taskId) then toggled t else t) (tasks st).
Proof. unfold dispatch. rewrite tasks_render. reflexivity. Qed.

Lemma tasks_updateTask (st : State) (taskId newText : list N) :
  tasks (dispatch (updateTask taskId newText) st)
  = map (fun t => if bool_decide (id t = taskId) then retexted newText t else t)
        (tasks st).
Proof. unfold dispatch. rewrite tasks_render. reflexivity. Qed.

(** A map that only touches the tasks with one id is the identity on a list
    where no task has it. *)
Lemma map_on_id_absent (f : Task → Task) (taskId : list N) (l : list Task) :
  taskId ∉ map id l →
  map (fun t => if bool_decide (id t = taskId) then f t else t) l = l.
Proof.
  induction l as [|t l IH]; simpl; [reflexivity|].
  intros Hnot. rewrite bool_decide_eq_false_2.
  - f_equal. apply IH. intros Hin. apply Hnot. now right.
  - intros Heq. apply Hnot. rewrite Heq. now left.
Qed.

(** C6: [toggleComplete(id)] keeps the length and the positions; a task
    with that id has its [completed] flag negated, its [id] and [text] kept;
    a task with another id is unchanged; done twice it gives back the
    original list; with an id that no task has the list is unchanged. *)
Theorem toggleComplete_flips (st : State) (taskId : list N) :
  let st' := dispatch (toggleComplete taskId) st in
  length (tasks st') = length (tasks st) ∧
  (∀ i t, tasks st !! i = Some t → id t = taskId →
     ∃ t', tasks st' !! i = Some t' ∧ completed t' = negb (completed t) ∧
           id t' = id t ∧ text t' = text t) ∧
  (∀ i t, tasks st !! i = Some t → id t ≠ taskId → tasks st' !! i = Some t) ∧
  tasks (dispatch (toggleComplete taskId) st') = tasks st ∧
  (taskId ∉ map id (tasks st) → tasks st' = tasks st).
Proof.
  intros st'. subst st'. rewrite !tasks_toggleComplete.
  split; [apply length_map|].
  split; [|split; [|split]].
  - intros i t Hi Hid. exists (toggled t). rewrite lookup_map, Hi. simpl.
    rewrite bool_decide_eq_true_2 by assumption. auto.
  - intros i t Hi Hid. rewrite lookup_map, Hi. simpl.
    now rewrite bool_decide_eq_false_2 by assumption.
  - rewrite map_map. rewrite <- (map_id (tasks st)) at 2.
    apply map_ext. intros [i x c]. simpl.
    destruct (bool_decide_reflect (i = taskId)) as [Heq|Hne]; simpl.
    + rewrite bool_decide_eq_true_2 by assumption.
      unfold toggled. simpl. now rewrite negb_involutive.
    + now rewrite bool_decide_eq_false_2 by assumption.
  - apply map_on_id_absent.
Qed.

Lemma toggleComplete_flips_witness :
  let st := dispatch (addTask 17) (setTask (lit "A") (mount (mkStorage None false))) in
  let st' := dispatch (toggleComplete (lit "17")) st in
  ∃ t', tasks st' !! 0%nat = Some t' ∧ completed t' = negb false ∧
        id t' = lit "17" ∧ text t' = lit "A".
Proof.
  exact (proj1 (proj2 (toggleComplete_flips
           (dispatch (addTask 17) (setTask (lit "A") (mount (mkStorage None false))))
           (lit "17")))
         0%nat (mkTask (lit "17") (lit "A") false) eq_refl eq_refl).
Defined.

(** C7: [updateTask(id, t)] keeps the length and the positions; a task with
    that id gets exactly the text [t] (the empty string included), its [id]
    and [completed] kept; a task with another id is unchanged; the id being
    edited is not cleared; with an id that no task has the list is
    unchanged. *)
Theorem updateTask_sets_text (st : State) (taskId newText : list N) :
  let st' := dispatch (updateTask taskId newText) st in
  length (tasks st') = length (tasks st) ∧
  (∀ i t, tasks st !! i = Some t → id t = taskId →
     ∃ t', tasks st' !! i = Some t' ∧ text t' = newText ∧
           id t' = id t ∧ completed t' = completed t) ∧
  (∀ i t, tasks st !! i = Some t → id t ≠ taskId → tasks st' !! i = Some t) ∧
  editingId st' = editingId st ∧
  (taskId ∉ map id (tasks st) → tasks st' = tasks st).
Proof.
  intros st'. subst st'. rewrite !tasks_updateTask.
  split; [apply length_map|].
  split; [|split; [|split]].
  - intros i t Hi Hid. exists (retexted newText t). rewrite lookup_map, Hi. simpl.
    rewrite bool_decide_eq_true_2 by assumption. auto.
  - intros i t Hi Hid. rewrite lookup_map, Hi. simpl.
    now rewrite bool_decide_eq_false_2 by assumption.
  - unfold dispatch. now rewrite editingId_render.
  - apply map_on_id_absent.
Qed.

Lemma updateTask_sets_text_witness :
  let st := dispatch (setEditingId (Some (lit "17")))
              (dispatch (addTask 17) (setTask (lit "A") (mount (mkStorage None false)))) in
  let st' := dispatch (updateTask (lit "17") []) st in
  ∃ t', tasks st' !! 0%nat = Some t' ∧ text t' = [] ∧
        id t' = lit "17" ∧ completed t' = false.
Proof.
  exact (proj1 (proj2 (updateTask_sets_text
           (dispatch (setEditingId (Some (lit "17")))
              (dispatch (addTask 17) (setTask (lit "A") (mount (mkStorage None false)))))
           (lit "17") []))
         0%nat (mkTask (lit "17") (lit "A") false) eq_refl eq_refl).
Defined.

(** ** Ids *)

(** C2: the id of a new task is the reading of the clock, so two tasks added
    while the clock shows the same millisecond get the same id.  From the
    empty list: type "A", press add, type "A", press add, the clock at
    1700000000000 both times. *)
Theorem addTask_twice_same_id :
  ∃ st,
    run [LoadSettled;
         ChangeText (lit "A"); PressAdd 1700000000000;
         ChangeText (lit "A"); PressAdd 1700000000000]
        (mount (mkStorage None false)) = Some st ∧
    tasks st = [mkTask (lit "1700000000000") (lit "A") false;
                mkTask (lit "1700000000000") (lit "A") false] ∧
    ¬ NoDup (map id (tasks st)).
Proof.
  eexists. split; [vm_compute; reflexivity|]. split; [reflexivity|].
  simpl. intros Hnd. apply NoDup_cons in Hnd. destruct Hnd as [Hnot _].
  apply Hnot. now left.
Qed.

(** ** load *)

Lemma mount_ok (s : Storage) :
  failing s = false →
  mount s = mkState [] [] 0 None ∅ [] [] (mkStorage (Some (lit "[]")) false)
                    [lit "[]"] (Some (Some (slot s))) [].
Proof. destruct s as [sl f]. simpl. intros ->. reflexivity. Qed.





(** ** persist *)


(** ** deleteTask *)

Lemma filter_other_ids (taskId : list N) (l : list Task) :
  taskId ∉ map id l → filter (fun item => id item ≠ taskId) l = l.
Proof.
  induction l as [|t l IH]; intros Hnot; [reflexivity|].
  rewrite filter_cons_True.
  - f_equal. apply IH. intros Hin. apply Hnot. simpl. now right.
  - intros Heq. apply Hnot. simpl. rewrite Heq. now left.
Qed.

(** Filtering out an id that one task has, in a list without repeated ids,
    takes out that task and keeps the others as they stand. *)
Lemma filter_unique_id (taskId : list N) (l : list Task) :
  NoDup (map id l) → taskId ∈ map id l →
  ∃ l1 t l2, l = l1 ++ t :: l2 ∧ id t = taskId ∧
             filter (fun item => id item ≠ taskId) l = l1 ++ l2.
Proof.
  induction l as [|t l IH]; simpl; intros Hnd Hin.
  - inversion Hin.
  - apply NoDup_cons in Hnd. destruct Hnd as [Hnot Hnd].
    destruct (decide (id t = taskId)) as [Heq|Hne].
    + exists [], t, l. split; [reflexivity|]. split; [exact Heq|].
      rewrite filter_cons_False by (intros H; now apply H).
      apply filter_other_ids. now rewrite <- Heq.
    + apply elem_of_cons in Hin. destruct Hin as [Heq|Hin]; [congruence|].
      destruct (IH Hnd Hin) as (l1 & t0 & l2 & Hl & Hid & Hf).
      exists (t :: l1), t0, l2. split; [now rewrite Hl|]. split; [exact Hid|].
      rewrite filter_cons_True by assumption. now rewrite Hf.
Qed.

Lemma not_in_filter_id (taskId : list N) (l : list Task) :
  taskId ∉ map id (filter (fun item => id item ≠ taskId) l).
Proof.
  intros Hin. apply list_elem_of_In, in_map_iff in Hin.
  destruct Hin as (t & Hid & Ht). apply list_elem_of_In, list_elem_of_filter in Ht.
  now destruct Ht as [Hne _].
Qed.

(** Timings without callback only move their values. *)
Lemma foldl_finishTiming_no_callback (ts : list Timing) (st : State) :
  Forall (fun t => onFinish t = None) ts →
  ∃ vs, foldl finishTiming st ts = withValues vs st.
Proof.
  intros Hall. revert st. induction Hall as [|t ts Ht _ IH]; intros st; simpl.
  - exists (values st). now destruct st.
  - unfold finishTiming at 2. rewrite Ht.
    destruct (IH (withValues (<[value t:=toValue t]> (values st)) st)) as [vs Hvs].
    exists vs. rewrite Hvs. reflexivity.
Qed.

Lemma Forall_no_callback_aged (d : N) (ts : list Timing) (p : Timing → bool) :
  Forall (fun t => onFinish t = None) ts →
  Forall (fun t => onFinish t = None) (List.filter p (map (age d) ts)).
Proof.
  intros Hall. apply List.Forall_forall. intros t Hin.
  apply filter_In in Hin. destruct Hin as [Hin _].
  apply in_map_iff in Hin. destruct Hin as (t0 & <- & Hin0).
  rewrite List.Forall_forall in Hall. exact (Hall t0 Hin0).
Qed.

Lemma tick_split (d : N) (st : State) (pre : list Timing) (t : Timing) :
  timings st = pre ++ [t] →
  tick d st =
  foldl finishTiming
    (foldl finishTiming
       (withTimings (List.filter (fun t => negb (isFinished t)) (map (age d) pre)
                     ++ List.filter (fun t => negb (isFinished t)) [age d t]) st)
       (List.filter isFinished (map (age d) pre)))
    (List.filter isFinished [age d t]).
Proof.
  intros Ht. unfold tick. rewrite Ht, map_app, !List.filter_app, foldl_app.
  reflexivity.
Qed.

Lemma tick_fading_before taskId anims l e d st :
  fading taskId anims l e st → e + d < 500 →
  fading taskId anims l (e + d) (tick d st).
Proof.
  intros (Htasks & pre & v & Htim & Hpre) Hlt.
  rewrite (tick_split d st pre _ Htim).
  assert (Hfin : isFinished (age d (mkTiming v 0 500 e (Some (RemoveTask taskId anims))))
                 = false).
  { unfold isFinished. simpl. apply N.leb_gt. exact Hlt. }
  simpl List.filter. rewrite Hfin. simpl negb. cbv iota. simpl foldl.
  destruct (foldl_finishTiming_no_callback
              (List.filter isFinished (map (age d) pre))
              (withTimings
                 (List.filter (fun t => negb (isFinished t)) (map (age d) pre)
                  ++ [age d (mkTiming v 0 500 e (Some (RemoveTask taskId anims)))]) st)
              (Forall_no_callback_aged d pre _ Hpre)) as [vs ->].
  split; [exact Htasks|].
  eexists _, v. split; [reflexivity|].
  apply Forall_no_callback_aged. exact Hpre.
Qed.

Lemma tick_fading_end taskId anims l e d st :
  fading taskId anims l e st → 500 <= e + d →
  tasks (tick d st) = filter (fun item => id item ≠ taskId) l ∧
  taskAnimations (tick d st) = delete taskId anims.
Proof.
  intros (Htasks & pre & v & Htim & Hpre) Hge.
  rewrite (tick_split d st pre _ Htim).
  assert (Hfin : isFinished (age d (mkTiming v 0 500 e (Some (RemoveTask taskId anims))))
                 = true).
  { unfold isFinished. simpl. apply N.leb_le. exact Hge. }
  simpl List.filter. rewrite Hfin. simpl negb. cbv iota. simpl foldl.
  destruct (foldl_finishTiming_no_callback
              (List.filter isFinished (map (age d) pre))
              (withTimings
                 (List.filter (fun t => negb (isFinished t)) (map (age d) pre) ++ []) st)
              (Forall_no_callback_aged d pre _ Hpre)) as [vs ->].
  unfold finishTiming. simpl onFinish. cbv iota. unfold dispatch.
  rewrite tasks_render, taskAnimations_render. simpl. rewrite Htasks.
  split; reflexivity.
Qed.

Lemma ticks_fading taskId anims l st (ds : list N) :
  fading taskId anims l 0 st → total ds < 500 →
  fading taskId anims l (total ds) (ticks ds st).
Proof.
  intros Hf. unfold ticks.
  enough (H : ∀ e s, fading taskId anims l e s → e + total ds < 500 →
                     fading taskId anims l (e + total ds) (foldl (fun s d => tick d s) s ds))
    by (intros Hlt; exact (H 0 st Hf Hlt)).
  induction ds as [|d ds IH]; intros e s Hs Hlt; simpl in *.
  - now rewrite N.add_0_r.
  - rewrite N.add_assoc. apply IH; [|lia].
    apply tick_fading_before; [exact Hs|lia].
Qed.

Lemma deleteTask_starts_fade (st : State) (taskId : list N) :
  taskId ∈ map id (tasks st) →
  Forall (fun t => onFinish t = None) (timings st) →
  fading taskId (<[taskId := length (values st)]> (taskAnimations st)) (tasks st) 0
         (dispatch (deleteTask taskId) st).
Proof.
  intros Hin Hpre. unfold dispatch, deleteTask.
  assert (Hfound : (0 <=? findIndex (fun t => bool_decide (id t = taskId)) (tasks st))%Z
                   = true).
  { apply Z.leb_le, findIndex_found, Exists_exists.
    apply list_elem_of_In, in_map_iff in Hin. destruct Hin as (t & Hid & Ht).
    exists t. split; [now apply list_elem_of_In|]. now apply bool_decide_eq_true_2. }
  rewrite Hfound. simpl. rewrite render_unchanged by reflexivity.
  split; [reflexivity|].
  exists (timings st), (length (values st)). split; [reflexivity|exact Hpre].
Qed.

(** X17: a deletion that nothing disturbs.  In a list without repeated ids
    and with no deletion fading, [deleteTask(id)] for an id that a task has
    starts a fade of 500 units.  While less than 500 units have passed (in
    any number of ticks, and with no other event in between) the list is what
    it was; the tick that reaches 500 removes exactly the task with that id:
    the list is one shorter, the other tasks keep their order, no task has
    the id any more, and the animation map has no entry for it. *)
Theorem deleteTask_removes_after_fade (st : State) (taskId : list N)
    (ds : list N) (d : N) :
  NoDup (map id (tasks st)) →
  taskId ∈ map id (tasks st) →
  Forall (fun t => onFinish t = None) (timings st) →
  total ds < 500 → 500 <= total ds + d →
  let st1 := ticks ds (dispatch (deleteTask taskId) st) in
  let st2 := tick d st1 in
  tasks st1 = tasks st ∧
  S (length (tasks st2)) = length (tasks st) ∧
  (∃ l1 t l2, tasks st = l1 ++ t :: l2 ∧ id t = taskId ∧ tasks st2 = l1 ++ l2) ∧
  (taskId ∉ map id (tasks st2)) ∧
  taskAnimations st2 !! taskId = None.
Proof.
  intros Hnd Hin Hpre Hlt Hge st1 st2.
  pose proof (ticks_fading _ _ _ _ ds (deleteTask_starts_fade st taskId Hin Hpre) Hlt)
    as Hfade.
  fold st1 in Hfade.
  destruct (tick_fading_end _ _ _ _ d st1 Hfade Hge) as [Htasks Hanims].
  fold st2 in Htasks, Hanims.
  destruct (filter_unique_id taskId (tasks st) Hnd Hin) as (l1 & t & l2 & Hl & Hid & Hf).
  split; [exact (proj1 Hfade)|].
  split; [|split; [|split]].
  - rewrite Htasks, Hf, Hl, !length_app. simpl. lia.
  - exists l1, t, l2. rewrite Htasks. auto.
  - rewrite Htasks. apply not_in_filter_id.
  - rewrite Hanims. apply lookup_delete_eq.
Qed.

Lemma deleteTask_removes_after_fade_witness :
  let st := dispatch (addTask 18) (dispatch (setTask (lit "B"))
              (dispatch (addTask 17) (dispatch (setTask (lit "A"))
                 (mount (mkStorage None false))))) in
  let st1 := ticks [200; 299] (dispatch (deleteTask (lit "17")) st) in
  let st2 := tick 1 st1 in
  tasks st1 = tasks st ∧
  S (length (tasks st2)) = length (tasks st) ∧
  (∃ l1 t l2, tasks st = l1 ++ t :: l2 ∧ id t = lit "17" ∧ tasks st2 = l1 ++ l2) ∧
  (lit "17" ∉ map id (tasks st2)) ∧
  taskAnimations st2 !! lit "17" = None.
Proof.
  apply deleteTask_removes_after_fade.
  - apply (bool_decide_unpack _). vm_compute. exact I.
  - apply (bool_decide_unpack _). vm_compute. exact I.
  - vm_compute. repeat constructor.
  - reflexivity.
  - discriminate.
Defined.

(** C4: [deleteTask] takes a task out with a filter on the id, so with two
    tasks under one id (as two adds at one clock reading leave them, see
    C2) one deletion removes both at the end of its fade: the list gets two
    shorter, not one.  From the empty list: add "A" and "B" with the clock
    at 17 both times, press delete on the id. *)
Theorem deleteTask_removes_every_task_with_the_id :
  ∃ st st1,
    run [LoadSettled;
         ChangeText (lit "A"); PressAdd 17;
         ChangeText (lit "B"); PressAdd 17]
        (mount (mkStorage None false)) = Some st ∧
    tasks st = [mkTask (lit "17") (lit "A") false; mkTask (lit "17") (lit "B") false] ∧
    step (PressDelete (lit "17")) st = Some st1 ∧
    tasks (tick 499 st1) = tasks st ∧
    tasks (tick 500 st1) = [] ∧
    length (tasks (tick 500 st1)) ≠ Nat.pred (length (tasks st)).
Proof.
  eexists. eexists. split; [vm_compute; reflexivity|].
  split; [reflexivity|]. split; [reflexivity|].
  split; [vm_compute; reflexivity|]. split; [vm_compute; reflexivity|].
  vm_compute. discriminate.
Qed.

(** ** JSON round trip *)

Lemma hexValue_hexDigit (d : N) : d < 16 → hexValue (hexDigit d) = Some d.
Proof.
  intros Hd.
  assert (H : d = 0 ∨ d = 1 ∨ d = 2 ∨ d = 3 ∨ d = 4 ∨ d = 5 ∨ d = 6 ∨ d = 7 ∨
              d = 8 ∨ d = 9 ∨ d = 10 ∨ d = 11 ∨ d = 12 ∨ d = 13 ∨ d = 14 ∨ d = 15)
    by lia.
  repeat (destruct H as [->|H]; [reflexivity|]). now subst d.
Qed.

Lemma unhex4_hex4 (c : N) :
  c < 65536 →
  unhex4 (hexDigit (c / 4096 mod 16)) (hexDigit (c / 256 mod 16))
         (hexDigit (c / 16 mod 16)) (hexDigit (c mod 16)) = Some c.
Proof.
  intros Hc. unfold unhex4.
  rewrite !hexValue_hexDigit by (apply N.mod_lt; discriminate).
  f_equal.
  change 4096 with (16 * 16 * 16). change 256 with (16 * 16).
  rewrite <- !N.Div0.div_div.
  pose proof (N.div_mod c 16 ltac:(discriminate)) as H0.
  pose proof (N.div_mod (c / 16) 16 ltac:(discriminate)) as H1.
  pose proof (N.div_mod (c / 16 / 16) 16 ltac:(discriminate)) as H2.
  pose proof (N.div_mod (c / 16 / 16 / 16) 16 ltac:(discriminate)) as H3.
  pose proof (N.mod_lt c 16 ltac:(discriminate)) as L0.
  pose proof (N.mod_lt (c / 16) 16 ltac:(discriminate)) as L1.
  pose proof (N.mod_lt (c / 16 / 16) 16 ltac:(discriminate)) as L2.
  pose proof (N.mod_lt (c / 16 / 16 / 16) 16 ltac:(discriminate)) as L3.
  set (q1 := c / 16) in *. set (q2 := q1 / 16) in *. set (q3 := q2 / 16) in *.
  set (q4 := q3 / 16) in *.
  set (r0 := c mod 16) in *. set (r1 := q1 mod 16) in *.
  set (r2 := q2 mod 16) in *. set (r3 := q3 mod 16) in *.
  clearbody q1 q2 q3 q4 r0 r1 r2 r3. lia.
Qed.

Lemma lex_string_cons (acc : list N) (c : N) (rest : list N) :
  lex (InString acc) (c :: rest) =
  if c =? 34 then cons (TString acc) <$> lex Idle rest
  else if c =? 92 then
    match rest with
    | e :: rest' =>
        if e =? 117 then
          match rest' with
          | h1 :: h2 :: h3 :: h4 :: rest'' =>
              match unhex4 h1 h2 h3 h4 with
              | Some u => lex (InString (acc ++ [u])) rest''
              | None => None
              end
          | _ => None
          end
        else
          match unescape e with
          | Some u => lex (InString (acc ++ [u])) rest'
          | None => None
          end
    | [] => None
    end
  else if c <? 32 then None
  else lex (InString (acc ++ [c])) rest.
Proof. reflexivity. Qed.

(** The lexer reads [\uXXXX] back as the code unit it was written for. *)
Lemma lex_unicodeEscape (acc : list N) (c : N) (tail : list N) :
  c < 65536 →
  lex (InString acc) (unicodeEscape c ++ tail) = lex (InString (acc ++ [c])) tail.
Proof.
  intros Hc. unfold unicodeEscape, hex4.
  change ((92 :: 117 :: ?l) ++ tail) with (92 :: 117 :: l ++ tail).
  rewrite lex_string_cons.
  change (92 =? 34) with false. change (92 =? 92) with true.
  change (117 =? 117) with true. cbv iota.
  change ([?a; ?b; ?c'; ?d] ++ tail) with (a :: b :: c' :: d :: tail).
  cbv iota beta. now rewrite (unhex4_hex4 c Hc).
Qed.

(** The lexer reads the escape of one code unit back as that code unit. *)
Lemma lex_quoteUnit (acc : list N) (c : N) (tail : list N) :
  lex (InString acc) (quoteUnit c ++ tail) = lex (InString (acc ++ [c])) tail.
Proof.
  unfold quoteUnit.
  destruct (N.eqb_spec c 8) as [->|H8]; [reflexivity|].
  destruct (N.eqb_spec c 9) as [->|H9]; [reflexivity|].
  destruct (N.eqb_spec c 10) as [->|H10]; [reflexivity|].
  destruct (N.eqb_spec c 12) as [->|H12]; [reflexivity|].
  destruct (N.eqb_spec c 13) as [->|H13]; [reflexivity|].
  destruct (N.eqb_spec c 34) as [->|H34]; [reflexivity|].
  destruct (N.eqb_spec c 92) as [->|H92]; [reflexivity|].
  destruct ((c <? 32) || isLowSurrogate c || isHighSurrogate c) eqn:Hesc.
  - apply lex_unicodeEscape.
    unfold isLowSurrogate, isHighSurrogate in Hesc.
    repeat (apply orb_true_iff in Hesc; destruct Hesc as [Hesc|Hesc]).
    + apply N.ltb_lt in Hesc. lia.
    + apply andb_true_iff in Hesc. destruct Hesc as [_ Hesc].
      apply N.leb_le in Hesc. lia.
    + apply andb_true_iff in Hesc. destruct Hesc as [_ Hesc].
      apply N.leb_le in Hesc. lia.
  - apply orb_false_iff in Hesc. destruct Hesc as [Hesc _].
    apply orb_false_iff in Hesc. destruct Hesc as [Hlt _].
    change ([c] ++ tail) with (c :: tail). rewrite lex_string_cons.
    rewrite (proj2 (N.eqb_neq c 34) H34), (proj2 (N.eqb_neq c 92) H92), Hlt.
    reflexivity.
Qed.

Lemma quoteBody_cons (c : N) (rest : list N) :
  quoteBody (c :: rest) =
  if isHighSurrogate c then
    match rest with
    | d :: rest' =>
        if isLowSurrogate d then c :: d :: quoteBody rest'
        else unicodeEscape c ++ quoteBody rest
    | [] => unicodeEscape c
    end
  else quoteUnit c ++ quoteBody rest.
Proof. reflexivity. Qed.

(** The lexer, inside a string, reads the quoted body of [s] and the closing
    quote as [s]. *)
Lemma lex_quoteBody (s : list N) :
  ∀ acc rest,
    lex (InString acc) (quoteBody s ++ 34 :: rest)
    = cons (TString (acc ++ s)) <$> lex Idle rest.
Proof.
  enough (H : (∀ acc rest, lex (InString acc) (quoteBody s ++ 34 :: rest)
                           = cons (TString (acc ++ s)) <$> lex Idle rest) ∧
              (∀ c acc rest, lex (InString acc) (quoteBody (c :: s) ++ 34 :: rest)
                             = cons (TString (acc ++ c :: s)) <$> lex Idle rest))
    by exact (proj1 H).
  induction s as [|d s [IH0 IH1]].
  - split.
    + intros acc rest. simpl quoteBody. rewrite app_nil_r. reflexivity.
    + intros c acc rest. rewrite quoteBody_cons.
      destruct (isHighSurrogate c) eqn:Hh.
      * rewrite lex_unicodeEscape.
        -- reflexivity.
        -- unfold isHighSurrogate in Hh. apply andb_true_iff in Hh.
           destruct Hh as [_ Hh]. apply N.leb_le in Hh. lia.
      * rewrite app_nil_r, lex_quoteUnit. reflexivity.
  - split; [exact (IH1 d)|].
    intros c acc rest. rewrite (quoteBody_cons c (d :: s)).
    destruct (isHighSurrogate c) eqn:Hh.
    + assert (Hc : c < 65536).
      { unfold isHighSurrogate in Hh. apply andb_true_iff in Hh.
        destruct Hh as [_ Hh]. apply N.leb_le in Hh. lia. }
      destruct (isLowSurrogate d) eqn:Hl.
      * unfold isHighSurrogate in Hh. unfold isLowSurrogate in Hl.
        apply andb_true_iff in Hh. destruct Hh as [Hh1 Hh2].
        apply andb_true_iff in Hl. destruct Hl as [Hl1 Hl2].
        apply N.leb_le in Hh1, Hh2, Hl1, Hl2.
        change ((c :: d :: quoteBody s) ++ 34 :: rest)
          with (c :: d :: quoteBody s ++ 34 :: rest).
        rewrite lex_string_cons.
        rewrite (proj2 (N.eqb_neq c 34)), (proj2 (N.eqb_neq c 92)),
                (proj2 (N.ltb_ge c 32)) by lia.
        rewrite lex_string_cons.
        rewrite (proj2 (N.eqb_neq d 34)), (proj2 (N.eqb_neq d 92)),
                (proj2 (N.ltb_ge d 32)) by lia.
        rewrite IH0, <- !app_assoc. reflexivity.
      * rewrite <- app_assoc, lex_unicodeEscape by exact Hc.
        rewrite IH1, <- app_assoc. reflexivity.
    + rewrite <- app_assoc, lex_quoteUnit.
      rewrite IH1, <- app_assoc. reflexivity.
Qed.

(** Evaluate the ASCII literals of a goal to their code units. *)
Ltac eval_lit :=
  repeat match goal with
         | |- context [jsonText ?s] =>
             let v := eval vm_compute in (jsonText s) in change (jsonText s) with v
         | |- context [lit ?s] =>
             let v := eval vm_compute in (lit s) in change (lit s) with v
         end.

Lemma stringify_task (t : Task) (rest : list N) :
  stringify (taskToJson t) ++ rest =
  seg_id ++ quoteBody (id t) ++ 34 :: seg_text ++ quoteBody (text t)
         ++ 34 :: seg_completed (completed t) ++ rest.
Proof.
  destruct t as [i x c]. unfold taskToJson, seg_id, seg_text, seg_completed.
  simpl id. simpl text. simpl completed.
  destruct c; repeat (progress (eval_lit; simpl; rewrite <- ?app_assoc));
    reflexivity.
Qed.

Lemma lex_seg_id (rest : list N) :
  lex Idle (seg_id ++ rest)
  = cons TLBrace <$> (cons (TString (lit "id")) <$>
      (cons TColon <$> lex (InString []) rest)).
Proof. reflexivity. Qed.

Lemma lex_seg_text (rest : list N) :
  lex Idle (seg_text ++ rest)
  = cons TComma <$> (cons (TString (lit "text")) <$>
      (cons TColon <$> lex (InString []) rest)).
Proof. reflexivity. Qed.

Lemma lex_seg_completed (c : bool) (rest : list N) :
  lex Idle (seg_completed c ++ rest)
  = cons TComma <$> (cons (TString (lit "completed")) <$>
      (cons TColon <$> (cons (if c then TTrue else TFalse) <$>
         (cons TRBrace <$> lex Idle rest)))).
Proof. destruct c; vm_compute; reflexivity. Qed.

Lemma lex_task (t : Task) (rest : list N) :
  lex Idle (stringify (taskToJson t) ++ rest)
  = app (taskTokens t) <$> lex Idle rest.
Proof.
  rewrite stringify_task, lex_seg_id, lex_quoteBody, lex_seg_text, lex_quoteBody,
          lex_seg_completed.
  destruct (lex Idle rest); reflexivity.
Qed.

Lemma lex_joined_tasks (l : list Task) :
  ∀ t rest,
    lex Idle (joinComma (map stringify (map taskToJson (t :: l))) ++ rest)
    = app (joinTokens (map taskTokens (t :: l))) <$> lex Idle rest.
Proof.
  induction l as [|t' l IH]; intros t rest.
  - apply lex_task.
  - change (joinComma (map stringify (map taskToJson (t :: t' :: l))))
      with (stringify (taskToJson t)
            ++ 44 :: joinComma (map stringify (map taskToJson (t' :: l)))).
    change (joinTokens (map taskTokens (t :: t' :: l)))
      with (taskTokens t ++ TComma :: joinTokens (map taskTokens (t' :: l))).
    rewrite <- app_assoc, lex_task.
    change ((44 :: ?a) ++ rest) with (44 :: a ++ rest).
    change (lex Idle (44 :: ?a)) with (cons TComma <$> lex Idle a).
    rewrite IH. destruct (lex Idle rest) as [ts|]; [|reflexivity].
    simpl. rewrite <- ?app_assoc. reflexivity.
Qed.

Lemma lex_tasks (l : list Task) :
  lex Idle (stringify (tasksToJson l)) = Some (tasksTokens l).
Proof.
  destruct l as [|t l]; [reflexivity|].
  unfold tasksToJson, tasksTokens.
  change (stringify (JArray (map taskToJson (t :: l))))
    with (91 :: joinComma (map stringify (map taskToJson (t :: l))) ++ [93]).
  change (lex Idle (91 :: ?a)) with (cons TLBracket <$> lex Idle a).
  rewrite lex_joined_tasks. reflexivity.
Qed.

Lemma prun_task (t : Task) (stack : list frame) (ts : list token) :
  prun (SValue stack) (taskTokens t ++ ts) = prun (SAfter (taskToJson t) stack) ts.
Proof. destruct t as [i x []]; reflexivity. Qed.

Lemma prun_joined_tasks (l : list Task) :
  ∀ t done,
    prun (SValue [FArray done]) (joinTokens (map taskTokens (t :: l)) ++ [TRBracket])
    = Some (JArray (done ++ map taskToJson (t :: l))).
Proof.
  induction l as [|t' l IH]; intros t done.
  - change (joinTokens (map taskTokens [t])) with (taskTokens t).
    rewrite prun_task. reflexivity.
  - change (joinTokens (map taskTokens (t :: t' :: l)))
      with (taskTokens t ++ TComma :: joinTokens (map taskTokens (t' :: l))).
    rewrite <- app_assoc, prun_task.
    change (prun (SAfter (taskToJson t) [FArray done])
              ((TComma :: ?a) ++ [TRBracket]))
      with (prun (SValue [FArray (done ++ [taskToJson t])]) (a ++ [TRBracket])).
    rewrite IH, <- app_assoc. reflexivity.
Qed.

Lemma prun_tasks (l : list Task) :
  prun (SValue []) (tasksTokens l) = Some (tasksToJson l).
Proof.
  destruct l as [|t l]; [reflexivity|].
  unfold tasksTokens, tasksToJson.
  transitivity (prun (SValue [FArray []])
                  (joinTokens (map taskTokens (t :: l)) ++ [TRBracket])).
  - destruct l; reflexivity.
  - rewrite prun_joined_tasks. reflexivity.
Qed.

Lemma asTask_taskToJson (t : Task) : asTask (taskToJson t) = Some t.
Proof. destruct t as [i x c]. vm_compute. reflexivity. Qed.

Lemma asTaskList_tasksToJson (l : list Task) : asTaskList (tasksToJson l) = Some l.
Proof.
  unfold asTaskList, tasksToJson.
  induction l as [|t l IH]; [reflexivity|].
  change (mapM asTask (map taskToJson (t :: l)))
    with (asTask (taskToJson t) ≫= fun y =>
          mapM asTask (map taskToJson l) ≫= fun k => Some (y :: k)).
  rewrite asTask_taskToJson, IH. reflexivity.
Qed.

Lemma stringify_parse_roundtrip_json (l : list Task) :
  JSON_parse (stringify (tasksToJson l)) = Some (tasksToJson l).
Proof. unfold JSON_parse. rewrite lex_tasks. apply prun_tasks. Qed.

(** C8: for every task list, [JSON.stringify] followed by [JSON.parse] gives
    the list back: the same tasks (id, text and completed flag) in the same
    order. *)
Theorem stringify_parse_roundtrip (l : list Task) :
  JSON_parse (stringify (tasksToJson l)) = Some (tasksToJson l) ∧
  (JSON_parse (stringify (tasksToJson l)) ≫= asTaskList) = Some l.
Proof.
  pose proof (stringify_parse_roundtrip_json l) as H.
  split; [exact H|]. rewrite H. simpl. apply asTaskList_tasksToJson.
Qed.

Lemma load_parsed (s : Storage) (saved : list N) (v : json) (l : list Task) :
  failing s = false → slot s = Some saved →
  JSON_parse saved = Some v → asTaskList v = Some l →
  loadTasksFromStorage (mount s)
  = Some (dispatch (setTasks (fun _ => l)) (withPendingRead None (mount s))).
Proof.
  intros Hok Hslot Hparse Hlist. rewrite (mount_ok s Hok), Hslot.
  unfold loadTasksFromStorage. simpl pendingRead. cbv iota beta.
  destruct saved as [|c saved]; [discriminate Hparse|]. simpl truthy. cbv iota.
  now rewrite Hparse, Hlist.
Qed.

(** What one session saves, the next one loads: after a save on a storage
    that answers, a mount on that storage followed by the load has the same
    task list. *)
Corollary save_then_load (st : State) :
  failing (storage st) = false →
  ∃ st', loadTasksFromStorage (mount (storage (saveTasksToStorage st))) = Some st' ∧
         tasks st' = tasks st.
Proof.
  intros Hok.
  assert (Hs : storage (saveTasksToStorage st)
               = mkStorage (Some (stringify (tasksToJson (tasks st)))) false).
  { unfold saveTasksToStorage, setItem. rewrite Hok. reflexivity. }
  rewrite Hs.
  rewrite (load_parsed _ (stringify (tasksToJson (tasks st)))
             (tasksToJson (tasks st)) (tasks st)).
  - eexists. split; [reflexivity|]. unfold dispatch. now rewrite tasks_render.
  - reflexivity.
  - reflexivity.
  - apply stringify_parse_roundtrip_json.
  - apply asTaskList_tasksToJson.
Qed.

(** ** persist, continued *)

Lemma serializes_stringify (l : list Task) :
  serializes (stringify (tasksToJson l)) l.
Proof.
  unfold serializes. rewrite stringify_parse_roundtrip_json. simpl.
  apply asTaskList_tasksToJson.
Qed.

Lemma saved_nothing (st st' : State) :
  setItemCalls st' = setItemCalls st → tasks st' = tasks st → saved st st' [].
Proof. intros Hc Ht. split; [now rewrite Hc, app_nil_r|exact Ht]. Qed.



Lemma saved_trans (st1 st2 st3 : State) (c1 c2 : list (list N)) :
  saved st1 st2 c1 → saved st2 st3 c2 → saved st1 st3 (c1 ++ c2).
Proof.
  intros [H1 L1] [H2 L2]. split.
  - rewrite H2, H1. now rewrite app_assoc.
  - destruct c2 as [|p c2] using rev_ind.
    + rewrite app_nil_r. simpl in L2. destruct (last c1); congruence.
    + rewrite app_assoc, last_snoc. now rewrite last_snoc in L2.
Qed.





(** ** Further facts and runs *)

(** When the clock reading is not the id of a task of the list, the new
    task's id is new, and a list without repeated ids stays so. *)
Lemma addTask_fresh_id (st : State) (now : Z) :
  NoDup (map id (tasks st)) →
  toString now ∉ map id (tasks st) →
  NoDup (map id (tasks (dispatch (addTask now) st))).
Proof.
  intros Hnd Hfresh. unfold dispatch. rewrite tasks_render. unfold addTask.
  destruct (truthy (trim (task st))); [|exact Hnd].
  simpl. rewrite map_app. simpl.
  apply NoDup_app. split; [exact Hnd|]. split.
  - intros x Hx Hin. apply list_elem_of_singleton in Hin. now subst x.
  - apply NoDup_singleton.
Qed.

(** The scenario of the spec: add "Buy milk", toggle it, edit its text,
    delete it. *)
Example scenario_buy_milk :
  let start := mount (mkStorage None false) in
  let i := toString 1700000000000 in
  (tasks <$> run [LoadSettled; ChangeText (lit "Buy milk"); PressAdd 1700000000000]
                 start)
  = Some [mkTask i (lit "Buy milk") false] ∧
  (tasks <$> run [LoadSettled; ChangeText (lit "Buy milk"); PressAdd 1700000000000;
                  PressItem i] start)
  = Some [mkTask i (lit "Buy milk") true] ∧
  (tasks <$> run [LoadSettled; ChangeText (lit "Buy milk"); PressAdd 1700000000000;
                  PressItem i; PressEdit i; EditText i (lit "Buy oat milk"); Blur]
                 start)
  = Some [mkTask i (lit "Buy oat milk") true] ∧
  (tasks <$> run [LoadSettled; ChangeText (lit "Buy milk"); PressAdd 1700000000000;
                  PressItem i; PressEdit i; EditText i (lit "Buy oat milk"); Blur;
                  PressDelete i; Tick 499] start)
  = Some [mkTask i (lit "Buy oat milk") true] ∧
  (tasks <$> run [LoadSettled; ChangeText (lit "Buy milk"); PressAdd 1700000000000;
                  PressItem i; PressEdit i; EditText i (lit "Buy oat milk"); Blur;
                  PressDelete i; Tick 499; Tick 1] start)
  = Some [].
Proof. repeat split; vm_compute; reflexivity. Qed.

(** [JSON.parse] on texts that are and are not JSON. *)
Example JSON_parse_accepts :
  JSON_parse (jsonText " [ {'a' : [1.5e3, true, null]} , 'x\nA' ] ")
  = Some (JArray [JObject [(lit "a", JArray [JNumber (lit "1.5e3"); JBool true; JNull])];
                  JString [120; 10; 65]]).
Proof. vm_compute. reflexivity. Qed.

Example JSON_parse_rejects :
  JSON_parse (jsonText "[{'id':'1','text':'x','compl") = None ∧
  JSON_parse (lit "[1,]") = None ∧
  JSON_parse (jsonText "{'a' 1}") = None ∧
  JSON_parse (lit "01") = None ∧
  JSON_parse (lit "tru") = None ∧
  JSON_parse (lit "[] []") = None ∧
  JSON_parse [] = None.
Proof. repeat split; vm_compute; reflexivity. Qed.

(** A stored list whose objects list their properties in another order, with
    white space, loads as the same tasks. *)
Example load_other_layout :
  (tasks <$> loadTasksFromStorage
     (mount (mkStorage
        (Some (jsonText "[ { 'completed': true, 'text': 'x', 'id': '1' } ]"))
        false)))
  = Some [mkTask (lit "1") (lit "x") true].
Proof. vm_compute. reflexivity. Qed.

(** * More of the component *)

(** ** What a render leaves alone, continued *)


Lemma task_saveTasksToStorage (st : State) :
  task (saveTasksToStorage st) = task st.
Proof. unfold saveTasksToStorage. destruct (setItem _ _); reflexivity. Qed.

Lemma pendingRead_saveTasksToStorage (st : State) :
  pendingRead (saveTasksToStorage st) = pendingRead st.
Proof. unfold saveTasksToStorage. destruct (setItem _ _); reflexivity. Qed.


Lemma task_render (before after : State) :
  task (render before after) = task after.
Proof.
  unfold render. destruct (Nat.eqb _ _); [reflexivity|].
  apply task_saveTasksToStorage.
Qed.

(** ** The guard of addTask *)

Lemma trimStart_nil_iff (s : list N) : trimStart s = [] ↔ isBlank s = true.
Proof.
  induction s as [|c s IH]; simpl; [tauto|].
  destruct (isWhiteSpace c); simpl; [exact IH|]. split; discriminate.
Qed.

Lemma isBlank_trimStart (s : list N) : isBlank (trimStart s) = isBlank s.
Proof.
  induction s as [|c s IH]; simpl; [reflexivity|].
  destruct (isWhiteSpace c) eqn:Hc; simpl; [exact IH|]. now rewrite Hc.
Qed.

Lemma isBlank_rev (s : list N) : isBlank (rev s) = isBlank s.
Proof.
  unfold isBlank. induction s as [|c s IH]; simpl; [reflexivity|].
  rewrite forallb_app, IH. simpl. rewrite andb_true_r. apply andb_comm.
Qed.

(** [task.trim()] is truthy exactly when the text is not blank. *)
Lemma truthy_trim (s : list N) : truthy (trim s) = negb (isBlank s).
Proof.
  assert (H : trim s = [] ↔ isBlank s = true).
  { unfold trim, trimEnd. split.
    - intros Hnil. apply (f_equal (@rev N)) in Hnil. rewrite rev_involutive in Hnil.
      change (rev []) with (@nil N) in Hnil. apply trimStart_nil_iff in Hnil.
      rewrite isBlank_rev, isBlank_trimStart in Hnil. exact Hnil.
    - intros Hb. apply (proj2 (trimStart_nil_iff s)) in Hb. now rewrite Hb. }
  destruct (trim s) as [|c r] eqn:Ht; destruct (isBlank s); simpl; try reflexivity.
  - discriminate (proj1 H eq_refl).
  - discriminate (proj2 H eq_refl).
Qed.

(** X1: [addTask] adds a task exactly when the input has a code unit that is
    not white space.  Then the task is appended, the input is cleared and the
    id is the clock reading; otherwise list and input are what they were. *)
Theorem addTask_by_blankness (st : State) (now : Z) :
  let st' := dispatch (addTask now) st in
  tasks st' = (if isBlank (task st) then tasks st
               else tasks st ++ [mkTask (toString now) (task st) false]) ∧
  task st' = (if isBlank (task st) then task st else []) ∧
  editingId st' = editingId st.
Proof.
  intros st'. subst st'. unfold dispatch.
  rewrite tasks_render, task_render, editingId_render. unfold addTask.
  rewrite truthy_trim. destruct (isBlank (task st)); simpl; auto.
Qed.

Lemma isBlank_after_addTask (st : State) (now : Z) :
  isBlank (task (dispatch (addTask now) st)) = true.
Proof.
  unfold dispatch. rewrite task_render. unfold addTask. rewrite truthy_trim.
  destruct (isBlank (task st)) eqn:Hb; simpl; [exact Hb|reflexivity].
Qed.

(** X2: [addTask] empties the input, so a second [addTask] with nothing
    typed in between changes nothing, whatever the clock shows. *)
Theorem addTask_again_noop (st : State) (now now' : Z) :
  dispatch (addTask now') (dispatch (addTask now) st) = dispatch (addTask now) st.
Proof.
  pose proof (isBlank_after_addTask st now) as Hb.
  set (st1 := dispatch (addTask now) st) in *.
  unfold dispatch, addTask.
  rewrite truthy_trim, Hb. simpl. apply render_same.
Qed.

(** ** What the end of a timing does *)

Lemma tasks_finishTiming (st : State) (t : Timing) :
  tasks (finishTiming st t) =
  match onFinish t with
  | Some (RemoveTask taskId _) => filter (fun item => id item ≠ taskId) (tasks st)
  | None => tasks st
  end.
Proof.
  unfold finishTiming. destruct (onFinish t) as [[taskId anims]|]; [|reflexivity].
  unfold dispatch. now rewrite tasks_render.
Qed.

Lemma editingId_finishTiming (st : State) (t : Timing) :
  editingId (finishTiming st t) = editingId st.
Proof.
  unfold finishTiming. destruct (onFinish t) as [[taskId anims]|]; [|reflexivity].
  unfold dispatch. now rewrite editingId_render.
Qed.

Lemma task_finishTiming (st : State) (t : Timing) :
  task (finishTiming st t) = task st.
Proof.
  unfold finishTiming. destruct (onFinish t) as [[taskId anims]|]; [|reflexivity].
  unfold dispatch. now rewrite task_render.
Qed.


Lemma ids_filter_sublist (taskId : list N) (l : list Task) :
  map id (filter (fun item => id item ≠ taskId) l) `sublist_of` map id l.
Proof.
  change (id <$> filter (fun item => id item ≠ taskId) l `sublist_of` id <$> l).
  apply fmap_sublist, sublist_filter.
Qed.

Lemma ids_foldl_finishTiming (ts : list Timing) (st : State) :
  map id (tasks (foldl finishTiming st ts)) `sublist_of` map id (tasks st).
Proof.
  revert st. induction ts as [|t ts IH]; intros st; simpl; [reflexivity|].
  etransitivity; [apply IH|]. rewrite tasks_finishTiming.
  destruct (onFinish t) as [[taskId anims]|]; [apply ids_filter_sublist|reflexivity].
Qed.

Lemma editingId_foldl_finishTiming (ts : list Timing) (st : State) :
  editingId (foldl finishTiming st ts) = editingId st.
Proof.
  revert st. induction ts as [|t ts IH]; intros st; simpl; [reflexivity|].
  now rewrite IH, editingId_finishTiming.
Qed.

Lemma task_foldl_finishTiming (ts : list Timing) (st : State) :
  task (foldl finishTiming st ts) = task st.
Proof.
  revert st. induction ts as [|t ts IH]; intros st; simpl; [reflexivity|].
  now rewrite IH, task_finishTiming.
Qed.

Lemma ids_map_on_id (f : Task → Task) (taskId : list N) (l : list Task) :
  (∀ t, id (f t) = id t) →
  map id (map (fun t => if bool_decide (id t = taskId) then f t else t) l) = map id l.
Proof.
  intros Hf. rewrite map_map. apply map_ext. intros t.
  destruct (bool_decide (id t = taskId)); [apply Hf|reflexivity].
Qed.

(** ** Order and distinctness of ids *)

Lemma ids_after_step (e : Event) (st st' : State) :
  step e st = Some st' → e ≠ LoadSettled →
  map id (tasks st') `sublist_of` (map id (tasks st) ++ addedId e).
Proof.
  intros Hstep Hload. destruct e; simpl in Hstep; try congruence;
    injection Hstep as <-; simpl addedId; rewrite ?app_nil_r.
  - unfold dispatch. rewrite tasks_render. reflexivity.
  - unfold dispatch. rewrite tasks_render. unfold addTask.
    destruct (truthy (trim (task st))); simpl.
    + rewrite map_app. reflexivity.
    + apply sublist_inserts_r. reflexivity.
  - rewrite tasks_toggleComplete, ids_map_on_id; reflexivity.
  - unfold dispatch. rewrite tasks_render. reflexivity.
  - rewrite tasks_updateTask, ids_map_on_id; reflexivity.
  - unfold dispatch. rewrite tasks_render. reflexivity.
  - unfold dispatch. rewrite tasks_render. unfold deleteTask.
    destruct (0 <=? _)%Z; reflexivity.
  - unfold tick. etransitivity; [apply ids_foldl_finishTiming|]. reflexivity.
  - reflexivity.
Qed.

(** X3: no event other than the load reorders the list: the ids after the
    event are, in order, ids that were there before, followed for a press on
    add by the new id at the end. *)
Theorem step_keeps_order (e : Event) (st st' : State) :
  step e st = Some st' → e ≠ LoadSettled →
  map id (tasks st') `sublist_of` (map id (tasks st) ++ addedId e).
Proof. exact (ids_after_step e st st'). Qed.

(** X4: ids stay pairwise distinct through every event other than the load,
    provided a press on add comes at a clock reading that is not yet the id
    of a task. *)
Theorem step_keeps_ids_distinct (e : Event) (st st' : State) :
  step e st = Some st' → e ≠ LoadSettled →
  NoDup (map id (tasks st)) →
  (∀ now, e = PressAdd now → toString now ∉ map id (tasks st)) →
  NoDup (map id (tasks st')).
Proof.
  intros Hstep Hload Hnd Hfresh.
  apply (sublist_NoDup _ (map id (tasks st) ++ addedId e));
    [|exact (ids_after_step e st st' Hstep Hload)].
  destruct e; simpl addedId; rewrite ?app_nil_r; try exact Hnd.
  apply NoDup_app. split; [exact Hnd|]. split.
  - intros x Hx Hin. apply list_elem_of_singleton in Hin. subst x.
    now apply (Hfresh now).
  - apply NoDup_singleton.
Qed.

(** X5: only a press on Edit and a blur change the id being edited; in
    particular the end of a deletion and the load leave it as it is. *)
Theorem editingId_changes_only_on_edit_and_blur (e : Event) (st st' : State) :
  step e st = Some st' →
  (∀ taskId, e ≠ PressEdit taskId) → e ≠ Blur →
  editingId st' = editingId st.
Proof.
  intros Hstep Hedit Hblur. destruct e; simpl in Hstep; try congruence.
  - injection Hstep as <-. unfold dispatch. now rewrite editingId_render.
  - injection Hstep as <-. unfold dispatch. rewrite editingId_render.
    unfold addTask. destruct (truthy (trim (task st))); reflexivity.
  - injection Hstep as <-. unfold dispatch. now rewrite editingId_render.
  - injection Hstep as <-. unfold dispatch. now rewrite editingId_render.
  - injection Hstep as <-. unfold dispatch. rewrite editingId_render.
    unfold deleteTask. destruct (0 <=? _)%Z; reflexivity.
  - injection Hstep as <-. unfold tick. now rewrite editingId_foldl_finishTiming.
  - unfold loadTasksFromStorage in Hstep.
    destruct (pendingRead st) as [[[saved|]|]|]; try (injection Hstep as <-; reflexivity).
    destruct (truthy saved); [|injection Hstep as <-; reflexivity].
    destruct (JSON_parse saved) as [v|]; [|injection Hstep as <-; reflexivity].
    destruct (asTaskList v) as [l|]; [|discriminate].
    injection Hstep as <-. unfold dispatch. now rewrite editingId_render.
  - injection Hstep as <-. reflexivity.
Qed.

(** ** The storage follows the task list *)

Lemma inSync_saveTasksToStorage (st : State) :
  failing (storage st) = false → inSync (saveTasksToStorage st).
Proof.
  intros Hok. unfold inSync, saveTasksToStorage, setItem. rewrite Hok.
  split; reflexivity.
Qed.

Lemma inSync_dispatch (h : State → State) (st : State) :
  inSync st → storage (h st) = storage st →
  (tasksIdentity (h st) = tasksIdentity st → tasks (h st) = tasks st) →
  inSync (dispatch h st).
Proof.
  intros [Hok Hslot] Hsto Htasks. unfold dispatch, render.
  destruct (Nat.eqb_spec (tasksIdentity st) (tasksIdentity (h st))) as [Heq|Hne].
  - split; rewrite Hsto; [exact Hok|]. rewrite Htasks by congruence. exact Hslot.
  - apply inSync_saveTasksToStorage. now rewrite Hsto.
Qed.

Lemma inSync_finishTiming (st : State) (t : Timing) :
  inSync st → inSync (finishTiming st t).
Proof.
  intros Hs. unfold finishTiming. destruct (onFinish t) as [[taskId anims]|].
  - apply inSync_dispatch; [exact Hs|reflexivity|]. simpl. lia.
  - exact Hs.
Qed.

Lemma inSync_foldl_finishTiming (ts : list Timing) (st : State) :
  inSync st → inSync (foldl finishTiming st ts).
Proof.
  revert st. induction ts as [|t ts IH]; intros st Hs; simpl; [exact Hs|].
  apply IH, inSync_finishTiming, Hs.
Qed.

Lemma inSync_step (e : Event) (st st' : State) :
  inSync st → e ≠ StorageFault true → step e st = Some st' → inSync st'.
Proof.
  intros Hs Hfault Hstep. destruct e; simpl in Hstep.
  - injection Hstep as <-. now apply inSync_dispatch.
  - injection Hstep as <-. apply inSync_dispatch; [exact Hs| |];
      unfold addTask; destruct (truthy (trim (task st))); simpl;
      try reflexivity; lia.
  - injection Hstep as <-. apply inSync_dispatch; [exact Hs|reflexivity|].
    simpl. lia.
  - injection Hstep as <-. now apply inSync_dispatch.
  - injection Hstep as <-. apply inSync_dispatch; [exact Hs|reflexivity|].
    simpl. lia.
  - injection Hstep as <-. now apply inSync_dispatch.
  - injection Hstep as <-. apply inSync_dispatch; [exact Hs| |];
      unfold deleteTask; destruct (0 <=? _)%Z; reflexivity.
  - injection Hstep as <-. unfold tick. apply inSync_foldl_finishTiming. exact Hs.
  - unfold loadTasksFromStorage in Hstep.
    destruct (pendingRead st) as [[[saved|]|]|]; try (injection Hstep as <-; exact Hs).
    destruct (truthy saved); [|injection Hstep as <-; exact Hs].
    destruct (JSON_parse saved) as [v|]; [|injection Hstep as <-; exact Hs].
    destruct (asTaskList v) as [l|]; [|discriminate].
    injection Hstep as <-. apply inSync_dispatch; [exact Hs|reflexivity|].
    simpl. lia.
  - injection Hstep as <-. destruct b; [congruence|]. destruct Hs as [_ Hslot].
    split; [reflexivity|exact Hslot].
Qed.

Lemma inSync_run (es : list Event) (st st' : State) :
  inSync st → Forall (fun e => e ≠ StorageFault true) es →
  run es st = Some st' → inSync st'.
Proof.
  revert st. induction es as [|e es IH]; intros st Hs Hes Hrun; simpl in Hrun.
  - now injection Hrun as <-.
  - apply Forall_cons in Hes. destruct Hes as [He Hes].
    destruct (step e st) as [st1|] eqn:Hstep; [|discriminate].
    exact (IH st1 (inSync_step e st st1 Hs He Hstep) Hes Hrun).
Qed.

Lemma inSync_mount (s : Storage) : failing s = false → inSync (mount s).
Proof. intros Hok. rewrite (mount_ok s Hok). split; reflexivity. Qed.

(** X6: on a storage that does not fail and that at startup is empty or
    holds a text this component saved, after startup and any sequence of
    events the slot holds the serialization of the task list in memory. *)
Theorem storage_follows_tasks (es : list Event) (s : Storage) (st : State) :
  failing s = false →
  (slot s = None ∨ ∃ l, slot s = Some (stringify (tasksToJson l))) →
  Forall (fun e => e ≠ StorageFault true) es →
  run es (mount s) = Some st →
  failing (storage st) = false ∧
  slot (storage st) = Some (stringify (tasksToJson (tasks st))).
Proof.
  intros Hok _ Hes Hrun. exact (inSync_run es _ st (inSync_mount s Hok) Hes Hrun).
Qed.

(** X7: what a session leaves in the storage, the next session loads: after
    startup and any sequence of events on a storage that does not fail, a
    new mount on the storage left behind, followed by the load, has the same
    task list. *)
Theorem restart_recovers_tasks (es : list Event) (s : Storage) (st : State) :
  failing s = false → Forall (fun e => e ≠ StorageFault true) es →
  run es (mount s) = Some st →
  ∃ st', loadTasksFromStorage (mount (storage st)) = Some st' ∧
         tasks st' = tasks st.
Proof.
  intros Hok Hes Hrun.
  destruct (inSync_run es _ st (inSync_mount s Hok) Hes Hrun) as [Hok' Hslot].
  rewrite (load_parsed (storage st) _ (tasksToJson (tasks st)) (tasks st) Hok' Hslot
             (stringify_parse_roundtrip_json _) (asTaskList_tasksToJson _)).
  eexists. split; [reflexivity|]. unfold dispatch. now rewrite tasks_render.
Qed.

(** ** A storage that fails *)

Lemma failedSaves_nothing (st st' : State) :
  storage st' = storage st → setItemCalls st' = setItemCalls st →
  console st' = console st → failedSaves st st' [].
Proof.
  intros Hs Hc Hl. split; [exact Hs|]. split; simpl; now rewrite ?Hc, ?Hl, app_nil_r.
Qed.

Lemma failedSaves_trans (st1 st2 st3 : State) (c1 c2 : list (list N)) :
  failedSaves st1 st2 c1 → failedSaves st2 st3 c2 → failedSaves st1 st3 (c1 ++ c2).
Proof.
  intros (S1 & I1 & C1) (S2 & I2 & C2). split; [congruence|]. split.
  - rewrite I2, I1. now rewrite app_assoc.
  - rewrite C2, C1, <- app_assoc, length_app. f_equal. symmetry. apply replicate_add.
Qed.

Lemma failedSaves_dispatch (h : State → State) (st : State) :
  failing (storage st) = true →
  storage (h st) = storage st → console (h st) = console st →
  setItemCalls (h st) = setItemCalls st →
  ∃ calls, failedSaves st (dispatch h st) calls.
Proof.
  intros Hfail Hsto Hcon Hcalls. unfold dispatch, render.
  destruct (Nat.eqb (tasksIdentity st) (tasksIdentity (h st))).
  - exists []. now apply failedSaves_nothing.
  - exists [stringify (tasksToJson (tasks (h st)))].
    unfold saveTasksToStorage, setItem. rewrite Hsto, Hfail. split; simpl.
    + reflexivity.
    + now rewrite Hcalls, Hcon.
Qed.

Lemma failedSaves_finishTiming (st : State) (t : Timing) :
  failing (storage st) = true →
  ∃ calls, failedSaves st (finishTiming st t) calls.
Proof.
  intros Hfail. unfold finishTiming.
  destruct (onFinish t) as [cb|]; [|exists []; now apply failedSaves_nothing].
  destruct cb as [taskId anims].
  exact (failedSaves_dispatch (runCallback (RemoveTask taskId anims))
           (withValues (<[value t:=toValue t]> (values st)) st)
           Hfail eq_refl eq_refl eq_refl).
Qed.

Lemma failedSaves_foldl_finishTiming (ts : list Timing) (st : State) :
  failing (storage st) = true →
  ∃ calls, failedSaves st (foldl finishTiming st ts) calls.
Proof.
  revert st. induction ts as [|t ts IH]; intros st Hfail; simpl.
  - exists []. now apply failedSaves_nothing.
  - destruct (failedSaves_finishTiming st t Hfail) as [c1 H1].
    assert (Hfail' : failing (storage (finishTiming st t)) = true)
      by (rewrite (proj1 H1); exact Hfail).
    destruct (IH _ Hfail') as [c2 H2].
    exists (c1 ++ c2). exact (failedSaves_trans _ _ _ _ _ H1 H2).
Qed.

(** X8: while the storage fails, an event of the user or of the clock
    leaves the storage as it is, and logs one line
    "Failed to save tasks to storage" for every [setItem] call it makes, and
    nothing else. *)
Theorem failing_storage_is_untouched (e : Event) (st st' : State) :
  failing (storage st) = true →
  isFault e = false → e ≠ LoadSettled →
  step e st = Some st' →
  storage st' = storage st ∧
  ∃ calls, setItemCalls st' = setItemCalls st ++ calls ∧
           console st' = console st
                         ++ replicate (length calls)
                              (lit "Failed to save tasks to storage").
Proof.
  intros Hfail Hfault Hload Hstep.
  enough (H : ∃ calls, failedSaves st st' calls).
  { destruct H as (calls & Hs & Hc & Hl). split; [exact Hs|]. now exists calls. }
  destruct e; simpl in Hstep; try discriminate; try congruence;
    injection Hstep as <-.
  - now apply failedSaves_dispatch.
  - apply failedSaves_dispatch; [exact Hfail| | |];
      unfold addTask; destruct (truthy (trim (task st))); reflexivity.
  - now apply failedSaves_dispatch.
  - now apply failedSaves_dispatch.
  - now apply failedSaves_dispatch.
  - now apply failedSaves_dispatch.
  - apply failedSaves_dispatch; [exact Hfail| | |];
      unfold deleteTask; destruct (0 <=? _)%Z; reflexivity.
  - unfold tick. apply (failedSaves_foldl_finishTiming _ (withTimings _ st)). exact Hfail.
Qed.

(** ** The screen does not depend on the storage *)

Lemma uiState_saveTasksToStorage (st : State) :
  uiState (saveTasksToStorage st) = uiState st.
Proof. unfold saveTasksToStorage. destruct (setItem _ _); reflexivity. Qed.

Lemma uiState_render (b1 b2 a1 a2 : State) :
  uiState b1 = uiState b2 → uiState a1 = uiState a2 →
  uiState (render b1 a1) = uiState (render b2 a2).
Proof.
  intros Hb Ha. unfold render.
  assert (Hib : tasksIdentity b1 = tasksIdentity b2)
    by (unfold uiState in Hb; congruence).
  assert (Hia : tasksIdentity a1 = tasksIdentity a2)
    by (unfold uiState in Ha; congruence).
  rewrite Hib, Hia. destruct (Nat.eqb _ _); [exact Ha|].
  now rewrite !uiState_saveTasksToStorage.
Qed.

(** Two states that look the same, laid open. *)
Ltac same_ui H :=
  match type of H with
  | uiState ?s1 = uiState ?s2 =>
      destruct s1, s2; unfold uiState in H; simpl in H;
      injection H as -> -> -> -> -> -> -> ->
  end.

Lemma uiState_dispatch (h : State → State) (st1 st2 : State) :
  (∀ s1 s2, uiState s1 = uiState s2 → uiState (h s1) = uiState (h s2)) →
  uiState st1 = uiState st2 →
  uiState (dispatch h st1) = uiState (dispatch h st2).
Proof. intros Hh Hst. unfold dispatch. apply uiState_render; auto. Qed.

Lemma uiState_setTask v s1 s2 :
  uiState s1 = uiState s2 → uiState (setTask v s1) = uiState (setTask v s2).
Proof. intros H. same_ui H. reflexivity. Qed.

Lemma uiState_setEditingId v s1 s2 :
  uiState s1 = uiState s2 → uiState (setEditingId v s1) = uiState (setEditingId v s2).
Proof. intros H. same_ui H. reflexivity. Qed.

Lemma uiState_setTasks f s1 s2 :
  uiState s1 = uiState s2 → uiState (setTasks f s1) = uiState (setTasks f s2).
Proof. intros H. same_ui H. reflexivity. Qed.

Lemma uiState_addTask now s1 s2 :
  uiState s1 = uiState s2 → uiState (addTask now s1) = uiState (addTask now s2).
Proof.
  intros H. same_ui H. unfold addTask. simpl task.
  destruct (truthy (trim _)); reflexivity.
Qed.

Lemma uiState_deleteTask taskId s1 s2 :
  uiState s1 = uiState s2 →
  uiState (deleteTask taskId s1) = uiState (deleteTask taskId s2).
Proof.
  intros H. same_ui H. unfold deleteTask. simpl tasks.
  destruct (0 <=? _)%Z; reflexivity.
Qed.

Lemma uiState_runCallback cb s1 s2 :
  uiState s1 = uiState s2 → uiState (runCallback cb s1) = uiState (runCallback cb s2).
Proof. intros H. same_ui H. destruct cb. reflexivity. Qed.

Lemma uiState_withValues v s1 s2 :
  uiState s1 = uiState s2 → uiState (withValues v s1) = uiState (withValues v s2).
Proof. intros H. same_ui H. reflexivity. Qed.

Lemma uiState_withTimings v s1 s2 :
  uiState s1 = uiState s2 → uiState (withTimings v s1) = uiState (withTimings v s2).
Proof. intros H. same_ui H. reflexivity. Qed.

Lemma uiState_withPendingRead v s1 s2 :
  uiState s1 = uiState s2 →
  uiState (withPendingRead v s1) = uiState (withPendingRead v s2).
Proof. intros H. same_ui H. reflexivity. Qed.

Lemma uiState_console_error m1 m2 s1 s2 :
  uiState s1 = uiState s2 →
  uiState (console_error m1 s1) = uiState (console_error m2 s2).
Proof. intros H. same_ui H. reflexivity. Qed.

Lemma uiState_finishTiming (t : Timing) (s1 s2 : State) :
  uiState s1 = uiState s2 →
  uiState (finishTiming s1 t) = uiState (finishTiming s2 t).
Proof.
  intros H. unfold finishTiming.
  assert (Hv : values s1 = values s2) by (unfold uiState in H; congruence).
  rewrite Hv.
  destruct (onFinish t) as [cb|].
  - apply uiState_dispatch; [apply uiState_runCallback|].
    now apply uiState_withValues.
  - now apply uiState_withValues.
Qed.

Lemma uiState_foldl_finishTiming (ts : list Timing) (s1 s2 : State) :
  uiState s1 = uiState s2 →
  uiState (foldl finishTiming s1 ts) = uiState (foldl finishTiming s2 ts).
Proof.
  revert s1 s2. induction ts as [|t ts IH]; intros s1 s2 H; simpl; [exact H|].
  apply IH, uiState_finishTiming, H.
Qed.

(** X9: what the screen is drawn from (input, task list, id being edited,
    animation map, values, timings) evolves the same way whatever the
    storage does: two states that differ only in storage, console and record
    of saves go, by any event, to two states that again differ only there. *)
Theorem screen_ignores_storage (e : Event) (st1 st2 : State) :
  uiState st1 = uiState st2 →
  (uiState <$> step e st1) = (uiState <$> step e st2).
Proof.
  intros H. destruct e; simpl.
  - f_equal. apply uiState_dispatch; [apply uiState_setTask|exact H].
  - f_equal. apply uiState_dispatch; [apply uiState_addTask|exact H].
  - f_equal. apply uiState_dispatch; [apply uiState_setTasks|exact H].
  - f_equal. apply uiState_dispatch; [apply uiState_setEditingId|exact H].
  - f_equal. apply uiState_dispatch; [apply uiState_setTasks|exact H].
  - f_equal. apply uiState_dispatch; [apply uiState_setEditingId|exact H].
  - f_equal. apply uiState_dispatch; [apply uiState_deleteTask|exact H].
  - f_equal. unfold tick.
    assert (Ht : timings st1 = timings st2) by (unfold uiState in H; congruence).
    rewrite Ht. apply uiState_foldl_finishTiming. now apply uiState_withTimings.
  - unfold loadTasksFromStorage.
    assert (Hp : pendingRead st1 = pendingRead st2)
      by (unfold uiState in H; congruence).
    rewrite Hp.
    destruct (pendingRead st2) as [[[saved|]|]|]; simpl.
    + destruct (truthy saved); simpl.
      * destruct (JSON_parse saved) as [v|]; simpl.
        -- destruct (asTaskList v) as [l|]; simpl; [|reflexivity].
           f_equal. apply uiState_dispatch; [apply uiState_setTasks|].
           now apply uiState_withPendingRead.
        -- f_equal. apply uiState_console_error. now apply uiState_withPendingRead.
      * f_equal. now apply uiState_withPendingRead.
    + f_equal. now apply uiState_withPendingRead.
    + f_equal. apply uiState_console_error. now apply uiState_withPendingRead.
    + f_equal. exact H.
  - f_equal. same_ui H. reflexivity.
Qed.

(** ** Startup *)

(** X10: startup on a storage that fails, whatever it holds: the read and
    the save of the first render both reject, each is caught and logged once
    (the statement leaves the order of the two lines open), the task list
    stays empty and the storage is as it was. *)
Theorem startup_on_failing_storage (stored : option (list N)) :
  ∃ st, loadTasksFromStorage (mount (mkStorage stored true)) = Some st ∧
        tasks st = [] ∧
        console st ≡ₚ [lit "Failed to load tasks from storage";
                       lit "Failed to save tasks to storage"] ∧
        storage st = mkStorage stored true ∧
        pendingRead st = None.
Proof.
  eexists. split; [reflexivity|]. split; [reflexivity|].
  split; [apply Permutation_swap|]. split; reflexivity.
Qed.

(** X11: the first render saves the empty list before the load has
    delivered anything, so on a storage that answers the stored text is
    replaced by the text of the empty list at mount; when the stored text
    does not parse, the load puts nothing back and the slot stays so. *)
Theorem startup_overwrites_slot (s : Storage) :
  failing s = false →
  slot (storage (mount s)) = Some (lit "[]") ∧
  (∀ saved, slot s = Some saved → saved ≠ [] → JSON_parse saved = None →
     ∃ st, loadTasksFromStorage (mount s) = Some st ∧
           slot (storage st) = Some (lit "[]") ∧ tasks st = []).
Proof.
  intros Hok. rewrite (mount_ok s Hok). split; [reflexivity|].
  intros saved Hslot Hne Hparse. rewrite Hslot.
  unfold loadTasksFromStorage. simpl pendingRead. cbv iota beta.
  destruct saved as [|c saved]; [congruence|]. simpl truthy. cbv iota.
  rewrite Hparse. eexists. split; [reflexivity|]. split; reflexivity.
Qed.

(** ** Timings at their end *)



Lemma taskAnimations_finishTiming (st : State) (t : Timing) :
  taskAnimations (finishTiming st t) =
  match onFinish t with
  | Some (RemoveTask taskId newTaskAnimations) => delete taskId newTaskAnimations
  | None => taskAnimations st
  end.
Proof.
  unfold finishTiming. destruct (onFinish t) as [[taskId anims]|]; [|reflexivity].
  unfold dispatch. now rewrite taskAnimations_render.
Qed.

Lemma setItemCalls_finishTiming (st : State) (t : Timing) :
  setItemCalls (finishTiming st t) =
  setItemCalls st ++
  match onFinish t with
  | Some (RemoveTask taskId _) =>
      [stringify (tasksToJson (filter (fun item => id item ≠ taskId) (tasks st)))]
  | None => []
  end.
Proof.
  unfold finishTiming. destruct (onFinish t) as [[taskId anims]|].
  - unfold dispatch. rewrite render_changed by (simpl; lia).
    now rewrite setItemCalls_saveTasksToStorage.
  - simpl. now rewrite app_nil_r.
Qed.

(** A tick on a state whose earlier timings have no callback: those only
    move values, and the later timings that finish are then served in
    order. *)
Lemma tick_after_quiet_prefix (d : N) (st : State) (pre post : list Timing) :
  timings st = pre ++ post →
  Forall (fun t => onFinish t = None) pre →
  ∃ vs, tick d st =
        foldl finishTiming
          (withValues vs
             (withTimings
                (List.filter (fun t => negb (isFinished t)) (map (age d) (pre ++ post)))
                st))
          (List.filter isFinished (map (age d) post)).
Proof.
  intros Ht Hpre.
  destruct (foldl_finishTiming_no_callback
              (List.filter isFinished (map (age d) pre))
              (withTimings
                 (List.filter (fun t => negb (isFinished t)) (map (age d) (pre ++ post)))
                 st)
              (Forall_no_callback_aged d pre _ Hpre)) as [vs Hvs].
  exists vs. unfold tick. rewrite Ht, <- Hvs, <- foldl_app, <- List.filter_app, <- map_app.
  reflexivity.
Qed.

Lemma addTask_not_blank (st : State) (now : Z) :
  isBlank (task st) = false →
  dispatch (addTask now) st =
  saveTasksToStorage
    (setTask []
       (startTiming (length (values st)) 1 500 None
          (setTaskAnimations (<[toString now := length (values st)]> (taskAnimations st))
             (withValues (values st ++ [0%Z])
                (setTasks (fun prevTasks =>
                             prevTasks ++ [mkTask (toString now) (task st) false]) st))))).
Proof.
  intros Hb. unfold dispatch, addTask. rewrite truthy_trim, Hb. simpl negb. cbv iota.
  apply render_changed. simpl. lia.
Qed.

Lemma deleteTask_present (st : State) (taskId : list N) :
  taskId ∈ map id (tasks st) →
  dispatch (deleteTask taskId) st =
  startTiming (length (values st)) 0 500
    (Some (RemoveTask taskId (<[taskId := length (values st)]> (taskAnimations st))))
    (setTaskAnimations (<[taskId := length (values st)]> (taskAnimations st))
       (withValues (values st ++ [1%Z]) st)).
Proof.
  intros Hin. unfold dispatch, deleteTask.
  assert (Hfound : (0 <=? findIndex (fun t => bool_decide (id t = taskId)) (tasks st))%Z
                   = true).
  { apply Z.leb_le, findIndex_found, Exists_exists.
    apply list_elem_of_In, in_map_iff in Hin. destruct Hin as (t & Hid & Ht).
    exists t. split; [now apply list_elem_of_In|]. now apply bool_decide_eq_true_2. }
  rewrite Hfound. simpl. now rewrite render_unchanged.
Qed.


(** X14: a task added while a deletion fades loses its animation entry: the
    callback of [deleteTask] sets the animation map from the copy it took
    when the deletion started, so the entry that [addTask] registered in
    between is gone once the fade ends, and the new task is drawn from what
    the map held for its id before (the default 1 when there was nothing). *)
Theorem addTask_during_fade_loses_entry (st : State) (taskId newText : list N)
    (now : Z) (d : N) :
  taskId ∈ map id (tasks st) →
  Forall (fun t => onFinish t = None) (timings st) →
  isBlank newText = false →
  toString now ≠ taskId →
  500 <= d →
  let st2 := dispatch (addTask now)
               (dispatch (setTask newText) (dispatch (deleteTask taskId) st)) in
  let st3 := tick d st2 in
  taskAnimations st2 !! toString now = Some (S (length (values st))) ∧
  tasks st3 = filter (fun item => id item ≠ taskId) (tasks st)
              ++ [mkTask (toString now) newText false] ∧
  taskAnimations st3 = delete taskId (taskAnimations st) ∧
  (taskAnimations st !! toString now = None →
     itemAnimation (renderItem st3 (mkTask (toString now) newText false)) = Some 1%Z).
Proof.
  intros Hin Hquiet Hb Hne Hd st2 st3.
  pose proof (deleteTask_present st taskId Hin) as H1.
  remember (dispatch (deleteTask taskId) st) as st1 eqn:Est1.
  assert (Hv1 : values st1 = values st ++ [1%Z]) by (rewrite H1; reflexivity).
  assert (Ha1 : taskAnimations st1 = <[taskId := length (values st)]> (taskAnimations st))
    by (rewrite H1; reflexivity).
  assert (Ht1 : timings st1 = timings st ++
            [mkTiming (length (values st)) 0 500 0
               (Some (RemoveTask taskId (<[taskId := length (values st)]> (taskAnimations st))))])
    by (rewrite H1; reflexivity).
  assert (Hk1 : tasks st1 = tasks st) by (rewrite H1; reflexivity).
  assert (Hl1 : length (values st1) = S (length (values st)))
    by (rewrite Hv1, length_app; simpl; lia).
  clear H1 Est1.
  assert (H1' : dispatch (setTask newText) st1 = setTask newText st1)
    by (unfold dispatch; now rewrite render_unchanged).
  assert (H2 : st2 = _)
    by exact (addTask_not_blank (dispatch (setTask newText) st1) now
                ltac:(rewrite H1'; exact Hb)).
  rewrite H1' in H2.
  assert (Hanim2 : taskAnimations st2 !! toString now = Some (S (length (values st)))).
  { rewrite H2, taskAnimations_saveTasksToStorage. simpl.
    rewrite Hl1. apply lookup_insert_eq. }
  assert (Htim : timings st2 = timings st ++
            [mkTiming (length (values st)) 0 500 0
               (Some (RemoveTask taskId (<[taskId := length (values st)]> (taskAnimations st))));
             mkTiming (S (length (values st))) 1 500 0 None]).
  { rewrite H2, timings_saveTasksToStorage. simpl. rewrite Hl1, Ht1.
    rewrite <- app_assoc. reflexivity. }
  assert (Htasks2 : tasks st2 = tasks st ++ [mkTask (toString now) newText false]).
  { rewrite H2, tasks_saveTasksToStorage. simpl. rewrite Hk1. reflexivity. }
  destruct (tick_after_quiet_prefix d st2 (timings st) _ Htim Hquiet) as [vs Hvs].
  assert (Hf : ∀ a v cb, isFinished (age d (mkTiming a v 500 0 cb)) = true)
    by (intros a v cb; unfold isFinished; simpl; apply N.leb_le; lia).
  simpl map in Hvs at 2. simpl List.filter in Hvs at 2. rewrite !Hf in Hvs.
  simpl foldl in Hvs.
  assert (Htasks3 : tasks st3 = filter (fun item => id item ≠ taskId) (tasks st)
                                ++ [mkTask (toString now) newText false]).
  { subst st3. rewrite Hvs, !tasks_finishTiming. simpl. rewrite Htasks2, filter_app.
    f_equal. rewrite filter_cons_True by (simpl; exact Hne). reflexivity. }
  assert (Hanim3 : taskAnimations st3 = delete taskId (taskAnimations st)).
  { subst st3. rewrite Hvs, !taskAnimations_finishTiming. simpl.
    apply delete_insert_eq. }
  split; [exact Hanim2|]. split; [exact Htasks3|]. split; [exact Hanim3|].
  intros Hnone. unfold renderItem. simpl id.
  rewrite Hanim3, lookup_delete_ne by congruence. now rewrite Hnone.
Qed.

(** ** What is drawn *)

Lemma no_input_without_id (st : State) (i : list N) (l : list Task) :
  editingId st = Some i → i ∉ map id l →
  List.filter itemIsInput (map (renderItem st) l) = [].
Proof.
  intros He. induction l as [|t l IH]; intros Hnot; simpl; [reflexivity|].
  rewrite He. rewrite bool_decide_eq_false_2.
  - apply IH. intros Hin. apply Hnot. simpl. now right.
  - intros Heq. apply Hnot. injection Heq as ->. simpl. now left.
Qed.

(** X15: with pairwise distinct ids, the list draws at most one task as a
    text input: the task whose id is the id being edited, if there is one;
    none when no id is being edited or when no task has that id (as after
    the task being edited was deleted). *)
Theorem at_most_one_input (st : State) :
  NoDup (map id (tasks st)) →
  length (List.filter itemIsInput (renderList st)) =
  match editingId st with
  | Some i => if bool_decide (i ∈ map id (tasks st)) then 1%nat else 0%nat
  | None => 0%nat
  end.
Proof.
  unfold renderList. intros Hnd.
  destruct (editingId st) as [i|] eqn:He.
  - induction (tasks st) as [|t l IH]; [reflexivity|].
    simpl in Hnd. apply NoDup_cons in Hnd. destruct Hnd as [Hnot Hnd].
    simpl. rewrite He.
    destruct (decide (id t = i)) as [Heq|Hne].
    + rewrite bool_decide_eq_true_2 by congruence. simpl.
      rewrite (no_input_without_id st i l He) by (rewrite <- Heq; exact Hnot).
      rewrite bool_decide_eq_true_2; [reflexivity|]. rewrite Heq. now left.
    + rewrite bool_decide_eq_false_2 by congruence.
      rewrite (IH Hnd). destruct (bool_decide_reflect (i ∈ map id l)) as [Hin|Hnin].
      * rewrite bool_decide_eq_true_2; [reflexivity|]. now right.
      * rewrite bool_decide_eq_false_2; [reflexivity|].
        intros Hin. apply elem_of_cons in Hin. destruct Hin as [Heq|Hin]; congruence.
  - induction (tasks st) as [|t l IH]; [reflexivity|].
    simpl in Hnd. apply NoDup_cons in Hnd. destruct Hnd as [_ Hnd].
    simpl. rewrite He. rewrite bool_decide_eq_false_2 by discriminate.
    exact (IH Hnd).
Qed.

(** ** The statements above at concrete states *)

Lemma step_keeps_order_witness :
  let st := dispatch (deleteTask (lit "17")) exampleTwoTasks in
  map id (tasks (tick 500 st)) `sublist_of` (map id (tasks st) ++ addedId (Tick 500)).
Proof.
  apply (step_keeps_order (Tick 500)
           (dispatch (deleteTask (lit "17")) exampleTwoTasks) _ eq_refl).
  discriminate.
Defined.

Lemma step_keeps_ids_distinct_witness :
  let st := dispatch (setTask (lit "C")) exampleTwoTasks in
  NoDup (map id (tasks (dispatch (addTask 19) st))).
Proof.
  apply (step_keeps_ids_distinct (PressAdd 19)
           (dispatch (setTask (lit "C")) exampleTwoTasks) _ eq_refl).
  - discriminate.
  - apply (bool_decide_unpack _). vm_compute. exact I.
  - intros now Hnow. injection Hnow as <-.
    apply (bool_decide_unpack _). vm_compute. exact I.
Defined.

Lemma editingId_changes_only_on_edit_and_blur_witness :
  let st := dispatch (deleteTask (lit "17"))
              (dispatch (setEditingId (Some (lit "17"))) exampleTwoTasks) in
  editingId (tick 500 st) = editingId st.
Proof.
  apply (editingId_changes_only_on_edit_and_blur (Tick 500)
           (dispatch (deleteTask (lit "17"))
              (dispatch (setEditingId (Some (lit "17"))) exampleTwoTasks)) _ eq_refl).
  - intros taskId. discriminate.
  - discriminate.
Defined.

Lemma storage_follows_tasks_witness :
  let es := [LoadSettled; ChangeText (lit "A"); PressAdd 17; PressItem (lit "17");
             PressDelete (lit "17"); Tick 500] in
  let s := mkStorage (Some (jsonText "[{'id':'1','text':'x','completed':true}]")) false in
  ∃ st, run es (mount s) = Some st ∧
        failing (storage st) = false ∧
        slot (storage st) = Some (stringify (tasksToJson (tasks st))).
Proof.
  intros es s.
  destruct (run es (mount s)) as [st|] eqn:Hrun.
  - exists st. split; [reflexivity|].
    apply (storage_follows_tasks es s st eq_refl); [| |exact Hrun].
    + right. exists [mkTask (lit "1") (lit "x") true]. vm_compute. reflexivity.
    + repeat constructor; discriminate.
  - vm_compute in Hrun. discriminate Hrun.
Defined.

Lemma restart_recovers_tasks_witness :
  let es := [LoadSettled; ChangeText (lit "A"); PressAdd 17; PressItem (lit "17")] in
  ∃ st, run es (mount (mkStorage None false)) = Some st ∧
  ∃ st', loadTasksFromStorage (mount (storage st)) = Some st' ∧
         tasks st' = tasks st.
Proof.
  intros es.
  destruct (run es (mount (mkStorage None false))) as [st|] eqn:Hrun.
  - exists st. split; [reflexivity|].
    apply (restart_recovers_tasks es (mkStorage None false) st eq_refl); [|exact Hrun].
    repeat constructor; discriminate.
  - vm_compute in Hrun. discriminate Hrun.
Defined.

Lemma failing_storage_is_untouched_witness :
  let st := withStorageFault true exampleOneTask in
  let st' := dispatch (toggleComplete (lit "17")) st in
  storage st' = storage st ∧
  ∃ calls, setItemCalls st' = setItemCalls st ++ calls ∧
           console st' = console st
                         ++ replicate (length calls)
                              (lit "Failed to save tasks to storage").
Proof.
  apply (failing_storage_is_untouched (PressItem (lit "17"))
           (withStorageFault true exampleOneTask) _ eq_refl eq_refl).
  - discriminate.
  - reflexivity.
Defined.

Lemma screen_ignores_storage_witness :
  (uiState <$> step (PressItem (lit "17")) exampleOneTask)
  = (uiState <$> step (PressItem (lit "17")) (withStorageFault true exampleOneTask)).
Proof.
  apply (screen_ignores_storage (PressItem (lit "17")) exampleOneTask
           (withStorageFault true exampleOneTask)).
  reflexivity.
Defined.

Lemma startup_overwrites_slot_witness :
  let s := mkStorage (Some (jsonText "[{'id':'1','text':'x','compl")) false in
  slot (storage (mount s)) = Some (lit "[]") ∧
  ∃ st, loadTasksFromStorage (mount s) = Some st ∧
        slot (storage st) = Some (lit "[]") ∧ tasks st = [].
Proof.
  intros s.
  destruct (startup_overwrites_slot s eq_refl) as [Hmount Hload].
  split; [exact Hmount|].
  apply (Hload (jsonText "[{'id':'1','text':'x','compl") eq_refl).
  - discriminate.
  - vm_compute. reflexivity.
Defined.


Lemma addTask_during_fade_loses_entry_witness :
  let st := exampleTwoTasks in
  let st2 := dispatch (addTask 19)
               (dispatch (setTask (lit "C")) (dispatch (deleteTask (lit "17")) st)) in
  let st3 := tick 500 st2 in
  taskAnimations st2 !! toString 19 = Some (S (length (values st))) ∧
  taskAnimations st3 !! toString 19 = None ∧
  itemAnimation (renderItem st3 (mkTask (toString 19) (lit "C") false)) = Some 1%Z.
Proof.
  intros st st2 st3.
  destruct (addTask_during_fade_loses_entry st (lit "17") (lit "C") 19 500)
    as (H2 & _ & H3 & Hr).
  - apply (bool_decide_unpack _). vm_compute. exact I.
  - vm_compute. repeat constructor.
  - reflexivity.
  - vm_compute. discriminate.
  - discriminate.
  - split; [exact H2|]. split.
    + fold st2 st3 in H3. rewrite H3. vm_compute. reflexivity.
    + apply Hr. vm_compute. reflexivity.
Defined.

Lemma at_most_one_input_witness :
  let st := dispatch (setEditingId (Some (lit "17"))) exampleTwoTasks in
  length (List.filter itemIsInput (renderList st)) =
  match editingId st with
  | Some i => if bool_decide (i ∈ map id (tasks st)) then 1%nat else 0%nat
  | None => 0%nat
  end.
Proof.
  apply at_most_one_input.
  apply (bool_decide_unpack _). vm_compute. exact I.
Defined.

(** ** The load against what came before it *)

Lemma pendingRead_render (before after : State) :
  pendingRead (render before after) = pendingRead after.
Proof.
  unfold render. destruct (Nat.eqb _ _); [reflexivity|].
  apply pendingRead_saveTasksToStorage.
Qed.

Lemma pendingRead_finishTiming (st : State) (t : Timing) :
  pendingRead (finishTiming st t) = pendingRead st.
Proof.
  unfold finishTiming. destruct (onFinish t) as [[taskId anims]|]; [|reflexivity].
  unfold dispatch. now rewrite pendingRead_render.
Qed.

Lemma pendingRead_foldl_finishTiming (ts : list Timing) (st : State) :
  pendingRead (foldl finishTiming st ts) = pendingRead st.
Proof.
  revert st. induction ts as [|t ts IH]; intros st; simpl; [reflexivity|].
  now rewrite IH, pendingRead_finishTiming.
Qed.

Lemma pendingRead_step (e : Event) (st st' : State) :
  e ≠ LoadSettled → step e st = Some st' → pendingRead st' = pendingRead st.
Proof.
  intros Hload Hstep. destruct e; simpl in Hstep; try congruence;
    injection Hstep as <-; unfold dispatch; rewrite ?pendingRead_render;
    try reflexivity.
  - unfold addTask. destruct (truthy (trim (task st))); reflexivity.
  - unfold deleteTask. destruct (0 <=? _)%Z; reflexivity.
  - unfold tick. now rewrite pendingRead_foldl_finishTiming.
Qed.

Lemma pendingRead_run (es : list Event) (st st' : State) :
  Forall (fun e => e ≠ LoadSettled) es → run es st = Some st' →
  pendingRead st' = pendingRead st.
Proof.
  revert st. induction es as [|e es IH]; intros st Hes Hrun; simpl in Hrun.
  - now injection Hrun as <-.
  - apply Forall_cons in Hes. destruct Hes as [He Hes].
    destruct (step e st) as [st1|] eqn:Hstep; [|discriminate].
    rewrite (IH st1 Hes Hrun). exact (pendingRead_step e st st1 He Hstep).
Qed.

Lemma run_app (es1 es2 : list Event) (st : State) :
  run (es1 ++ es2) st = run es1 st ≫= run es2.
Proof.
  revert st. induction es1 as [|e es1 IH]; intros st; simpl; [reflexivity|].
  destruct (step e st) as [st1|]; [apply IH|reflexivity].
Qed.

(** X16: the load replaces the list instead of merging into it: whatever
    was added, toggled, edited or deleted between startup and the moment the
    read settles, once it settles with a stored text that parses to a task
    list, the task list is exactly the stored one. *)
Theorem load_replaces_earlier_changes (es : list Event) (s : Storage)
    (saved : list N) (v : json) (l : list Task) (st : State) :
  failing s = false → slot s = Some saved →
  JSON_parse saved = Some v → asTaskList v = Some l →
  Forall (fun e => e ≠ LoadSettled) es →
  run (es ++ [LoadSettled]) (mount s) = Some st →
  tasks st = l.
Proof.
  intros Hok Hslot Hparse Hlist Hes Hrun. rewrite run_app in Hrun.
  destruct (run es (mount s)) as [st1|] eqn:Hrun1; [|discriminate].
  simpl in Hrun.
  pose proof (pendingRead_run es _ st1 Hes Hrun1) as Hread.
  rewrite (mount_ok s Hok) in Hread. simpl in Hread. rewrite Hslot in Hread.
  destruct (loadTasksFromStorage st1) as [st2|] eqn:Hload; [|discriminate].
  injection Hrun as <-.
  unfold loadTasksFromStorage in Hload. rewrite Hread in Hload.
  destruct saved as [|c saved]; [discriminate Hparse|]. simpl truthy in Hload.
  cbv iota in Hload. rewrite Hparse, Hlist in Hload. injection Hload as <-.
  unfold dispatch. now rewrite tasks_render.
Qed.

Lemma load_replaces_earlier_changes_witness :
  let s := mkStorage (Some (jsonText "[{'id':'1','text':'x','completed':true}]")) false in
  let es := [ChangeText (lit "A"); PressAdd 17; PressItem (lit "17")] in
  ∃ st, run (es ++ [LoadSettled]) (mount s) = Some st ∧
        tasks st = [mkTask (lit "1") (lit "x") true].
Proof.
  intros s es.
  destruct (run (es ++ [LoadSettled]) (mount s)) as [st|] eqn:Hrun.
  - exists st. split; [reflexivity|].
    apply (load_replaces_earlier_changes es s
             (jsonText "[{'id':'1','text':'x','completed':true}]")
             (tasksToJson [mkTask (lit "1") (lit "x") true])
             [mkTask (lit "1") (lit "x") true] st eq_refl eq_refl).
    + vm_compute. reflexivity.
    + vm_compute. reflexivity.
    + repeat constructor; discriminate.
    + exact Hrun.
  - vm_compute in Hrun. discriminate Hrun.
Defined.

(** * Fades that end early *)

Lemma withTimings_timings (st : State) : withTimings (timings st) st = st.
Proof. now destruct st. Qed.

Lemma timings_runCallback (cb : Callback) (st : State) :
  timings (runCallback cb st) = timings st.
Proof. now destruct cb. Qed.

Lemma commit_O (before after : State) : commit 0 before after = render before after.
Proof. reflexivity. Qed.

Lemma commit_S (n : nat) (before after : State) :
  commit (S n) before after =
  foldl (runStopped n)
        (withTimings
           (List.filter (fun t => negb (detached before (render before after) t))
              (timings (render before after)))
           (render before after))
        (List.filter (detached before (render before after))
           (timings (render before after))).
Proof. reflexivity. Qed.

Lemma Forall_List_filter {A} (P : A → Prop) (f : A → bool) (l : list A) :
  Forall P l → Forall P (List.filter f l).
Proof.
  induction 1 as [|a l Ha _ IH]; simpl; [constructor|].
  destruct (f a); [now constructor|exact IH].
Qed.

Lemma foldl_runStopped_quiet (n : nat) (l : list Timing) (st : State) :
  Forall (fun t => onFinish t = None) l → foldl (runStopped n) st l = st.
Proof.
  intros H. revert st. induction H as [|t l Ht _ IH]; intros st; simpl; [reflexivity|].
  unfold runStopped at 2. rewrite Ht. apply IH.
Qed.

Lemma timings_foldl_le (F : State → Timing → State) :
  (∀ st t, (length (timings (F st t)) <= length (timings st))%nat) →
  ∀ l st, (length (timings (foldl F st l)) <= length (timings st))%nat.
Proof.
  intros HF l. induction l as [|t l IH]; intros st; simpl; [lia|].
  etransitivity; [apply IH|apply HF].
Qed.

(** A render and its stops start no timing. *)
Lemma timings_commit_le (n : nat) (before after : State) :
  (length (timings (commit n before after)) <= length (timings after))%nat.
Proof.
  revert before after. induction n as [|n IH]; intros before after.
  - rewrite commit_O, timings_render. lia.
  - rewrite commit_S. etransitivity; [apply timings_foldl_le|].
    + intros st t. unfold runStopped. destruct (onFinish t) as [cb|]; [|lia].
      etransitivity; [apply IH|]. rewrite timings_runCallback. lia.
    + simpl timings at 1. etransitivity; [apply filter_length_le|].
      rewrite timings_render. lia.
Qed.

Lemma timings_runStopped_le (n : nat) (st : State) (t : Timing) :
  (length (timings (runStopped n st t)) <= length (timings st))%nat.
Proof.
  unfold runStopped. destruct (onFinish t) as [cb|]; [|lia].
  etransitivity; [apply timings_commit_le|]. rewrite timings_runCallback. lia.
Qed.

Lemma commit_no_timings (n : nat) (before after : State) :
  timings after = [] → commit n before after = render before after.
Proof.
  intros Hnil. destruct n as [|n]; [reflexivity|].
  rewrite commit_S.
  assert (H : timings (render before after) = []) by now rewrite timings_render.
  rewrite H. simpl. rewrite <- H. apply withTimings_timings.
Qed.

Lemma foldl_runStopped_fuel (n m : nat) :
  (∀ before after,
     (length (timings after) <= n)%nat → (length (timings after) <= m)%nat →
     commit n before after = commit m before after) →
  ∀ l st,
    (length (timings st) <= n)%nat → (length (timings st) <= m)%nat →
    foldl (runStopped n) st l = foldl (runStopped m) st l.
Proof.
  intros Hnm l. induction l as [|t l IH]; intros st Hn Hm; simpl; [reflexivity|].
  assert (Heq : runStopped n st t = runStopped m st t).
  { unfold runStopped. destruct (onFinish t) as [cb|]; [|reflexivity].
    apply Hnm; rewrite timings_runCallback; assumption. }
  rewrite Heq. apply IH.
  - etransitivity; [apply timings_runStopped_le|exact Hn].
  - etransitivity; [apply timings_runStopped_le|exact Hm].
Qed.

(** Fuel beyond the number of timings changes nothing. *)
Lemma commit_fuel (n m : nat) (before after : State) :
  (length (timings after) <= n)%nat → (length (timings after) <= m)%nat →
  commit n before after = commit m before after.
Proof.
  revert m before after. induction n as [|n IH]; intros m before after Hn Hm.
  - assert (Hnil : timings after = []) by (apply length_zero_iff_nil; lia).
    now rewrite !commit_no_timings.
  - destruct m as [|m].
    + assert (Hnil : timings after = []) by (apply length_zero_iff_nil; lia).
      now rewrite !commit_no_timings.
    + rewrite !commit_S.
      pose proof (filter_length (detached before (render before after))
                    (timings (render before after))) as Hlen.
      rewrite timings_render in Hlen at 3.
      destruct (List.filter (detached before (render before after))
                  (timings (render before after))) as [|t ts] eqn:Hstop;
        [reflexivity|].
      simpl length in Hlen.
      apply foldl_runStopped_fuel.
      * intros b a Ha Hb. now apply IH.
      * simpl timings. lia.
      * simpl timings. lia.
Qed.

(** With fuel for every timing, the stops of a render can be told with the
    same fuel. *)
Lemma commit_enough (n : nat) (before after : State) :
  (length (timings after) <= n)%nat →
  commit n before after =
  foldl (runStopped n)
        (withTimings
           (List.filter (fun t => negb (detached before (render before after) t))
              (timings (render before after)))
           (render before after))
        (List.filter (detached before (render before after))
           (timings (render before after))).
Proof.
  intros Hn. rewrite (commit_fuel n (S n)) by lia. rewrite commit_S.
  pose proof (filter_length (detached before (render before after))
                (timings (render before after))) as Hlen.
  rewrite timings_render in Hlen at 3.
  apply foldl_runStopped_fuel.
  - intros b a Ha Hb. now apply commit_fuel.
  - simpl timings. lia.
  - simpl timings. lia.
Qed.

(** A render that takes no timing with a callback off the screen. *)
Lemma commit_stop_none (n : nat) (before after : State) :
  (length (timings after) <= n)%nat →
  Forall (fun t => onFinish t = None)
         (List.filter (detached before (render before after))
            (timings (render before after))) →
  commit n before after =
  withTimings
    (List.filter (fun t => negb (detached before (render before after) t))
       (timings (render before after)))
    (render before after).
Proof.
  intros Hn Hq. rewrite (commit_enough n) by exact Hn.
  now apply foldl_runStopped_quiet.
Qed.

(** A render that takes one timing with a callback off the screen. *)
Lemma commit_stop_one (n : nat) (before after : State) (qs1 qs2 : list Timing)
    (t : Timing) (cb : Callback) :
  (length (timings after) <= n)%nat →
  List.filter (detached before (render before after)) (timings (render before after))
  = qs1 ++ t :: qs2 →
  Forall (fun t => onFinish t = None) qs1 →
  Forall (fun t => onFinish t = None) qs2 →
  onFinish t = Some cb →
  let kept := withTimings
                (List.filter (fun t => negb (detached before (render before after) t))
                   (timings (render before after)))
                (render before after) in
  commit n before after = commit n kept (runCallback cb kept).
Proof.
  intros Hn Hstop Hq1 Hq2 Hcb kept. rewrite (commit_enough n) by exact Hn.
  fold kept. rewrite Hstop, foldl_app. simpl.
  rewrite (foldl_runStopped_quiet n qs1) by exact Hq1.
  unfold runStopped at 2. rewrite Hcb.
  now apply foldl_runStopped_quiet.
Qed.

Lemma elem_of_drawn (v : nat) (st : State) :
  v ∈ drawn st ↔ ∃ item, item ∈ tasks st ∧ taskAnimations st !! id item = Some v.
Proof. unfold drawn. apply list_elem_of_omap. Qed.

Lemma detached_true (before after : State) (t : Timing) :
  value t ∈ drawn before → value t ∉ drawn after → detached before after t = true.
Proof.
  intros Hb Ha. unfold detached.
  rewrite (bool_decide_eq_true_2 _ Hb), (bool_decide_eq_false_2 _ Ha). reflexivity.
Qed.

Lemma detached_not_drawn (before after : State) (t : Timing) :
  value t ∉ drawn before → detached before after t = false.
Proof. intros Hb. unfold detached. now rewrite (bool_decide_eq_false_2 _ Hb). Qed.

Lemma deleteTask_found (st : State) (taskId : list N) :
  taskId ∈ map id (tasks st) →
  deleteTask taskId st =
  startTiming (length (values st)) 0 500
    (Some (RemoveTask taskId (<[taskId := length (values st)]> (taskAnimations st))))
    (setTaskAnimations (<[taskId := length (values st)]> (taskAnimations st))
       (withValues (values st ++ [1%Z]) st)).
Proof.
  intros Hin. unfold deleteTask.
  assert (Hfound : (0 <=? findIndex (fun t => bool_decide (id t = taskId)) (tasks st))%Z
                   = true).
  { apply Z.leb_le, findIndex_found, Exists_exists.
    apply list_elem_of_In, in_map_iff in Hin. destruct Hin as (t & Hid & Ht).
    exists t. split; [now apply list_elem_of_In|]. now apply bool_decide_eq_true_2. }
  rewrite Hfound. reflexivity.
Qed.

(** X13: a press on the delete button of a task whose deletion is fading.
    The row gets a new value, so the value of the running fade leaves the
    screen and react-native stops the fade: its callback removes the task
    during the press, not when the 500 units are over.  The row is then
    gone, the fade that the press started is stopped in turn, and its
    callback removes nothing and still sets a new list: the press makes two
    saves of the list without the task. *)
Theorem deleteTask_twice (st : State) (taskId : list N) (v : nat) (e : N)
    (anims : gmap (list N) nat) (pre : list Timing) :
  taskId ∈ map id (tasks st) →
  taskAnimations st !! taskId = Some v →
  (∀ i, taskAnimations st !! i = Some v → i = taskId) →
  (∀ i a, taskAnimations st !! i = Some a → (a < length (values st))%nat) →
  (∀ i a, anims !! i = Some a → (a < length (values st))%nat) →
  timings st = pre ++ [mkTiming v 0 500 e (Some (RemoveTask taskId anims))] →
  Forall (fun t => onFinish t = None) pre →
  let st' := dispatchStop (deleteTask taskId) st in
  let remaining := filter (fun item => id item ≠ taskId) (tasks st) in
  tasks st' = remaining ∧
  (∃ p1 p2, setItemCalls st' = setItemCalls st ++ [p1; p2] ∧
            serializes p1 remaining ∧ serializes p2 remaining) ∧
  taskAnimations st' = delete taskId (taskAnimations st) ∧
  Forall (fun t => onFinish t = None) (timings st').
Proof.
  intros Hin Hv Honly Hold Hsnap Htim Hpre st' remaining.
  set (d := length (values st)).
  set (M2 := <[taskId := d]> (taskAnimations st)).
  set (T1 := mkTiming v 0 500 e (Some (RemoveTask taskId anims))) in *.
  set (T2 := mkTiming d 0 500 0 (Some (RemoveTask taskId M2))).
  pose proof (proj1 (list_elem_of_In _ _) Hin) as Hin'.
  apply in_map_iff in Hin'. destruct Hin' as (it & Hit & Hitin).
  apply list_elem_of_In in Hitin.
  (* the press *)
  subst st'. unfold dispatchStop. cbv zeta.
  rewrite (deleteTask_found st taskId Hin). fold d M2.
  set (A := startTiming d 0 500 (Some (RemoveTask taskId M2))
              (setTaskAnimations M2 (withValues (values st ++ [1%Z]) st))).
  set (n := length (timings A)).
  assert (HtA : timings A = pre ++ [T1; T2]).
  { subst A. simpl. rewrite Htim, <- app_assoc. reflexivity. }
  assert (HrA : render st A = A) by (apply render_unchanged; reflexivity).
  assert (HdA : ∀ x, x ∈ drawn A → x = d ∨ (x < d)%nat ∧ x ≠ v).
  { intros x Hx. apply elem_of_drawn in Hx. destruct Hx as (item & _ & Hl).
    change (taskAnimations A) with M2 in Hl. subst M2.
    destruct (decide (id item = taskId)) as [Heq|Hne].
    - rewrite Heq, lookup_insert_eq in Hl. left. congruence.
    - rewrite lookup_insert_ne in Hl by congruence. right.
      split; [exact (Hold _ _ Hl)|]. intros ->. apply Hne. now apply Honly. }
  assert (Hvd : (v < d)%nat) by exact (Hold _ _ Hv).
  assert (H1 : detached st A T1 = true).
  { apply detached_true.
    - apply elem_of_drawn. exists it. split; [exact Hitin|]. now rewrite Hit.
    - intros Hx. destruct (HdA _ Hx) as [Heq|[_ Hne]]; simpl in *; [lia|congruence]. }
  assert (H2 : detached st A T2 = false).
  { apply detached_not_drawn. intros Hx. apply elem_of_drawn in Hx.
    destruct Hx as (item & _ & Hl). apply Hold in Hl. simpl in Hl. subst d. lia. }
  set (K := withTimings (List.filter (fun t => negb (detached st (render st A) t))
                           (timings (render st A))) (render st A)).
  assert (Hstep1 : commit n st A = commit n K (runCallback (RemoveTask taskId anims) K)).
  { apply (commit_stop_one n st A (List.filter (detached st A) pre) [] T1).
    - subst n. lia.
    - rewrite HrA, HtA, List.filter_app. simpl. now rewrite H1, H2.
    - now apply Forall_List_filter.
    - constructor.
    - reflexivity. }
  rewrite Hstep1. clear Hstep1.
  assert (HK : K = withTimings (List.filter (fun t => negb (detached st A t)) pre ++ [T2]) A).
  { subst K. rewrite HrA, HtA, List.filter_app. simpl. now rewrite H1, H2. }
  set (pre1 := List.filter (fun t => negb (detached st A t)) pre) in HK.
  assert (Hpre1 : Forall (fun t => onFinish t = None) pre1)
    by now apply Forall_List_filter.
  assert (Hn1 : (length pre1 + 1 <= n)%nat).
  { subst n. rewrite HtA, length_app. simpl.
    pose proof (filter_length_le (fun t => negb (detached st A t)) pre). subst pre1. lia. }
  clearbody K pre1. subst K. clear HrA H1 H2.
  (* the callback of the stopped fade *)
  set (K := withTimings (pre1 ++ [T2]) A).
  set (B := runCallback (RemoveTask taskId anims) K).
  assert (HrB : render K B = saveTasksToStorage B)
    by (apply render_changed; simpl; lia).
  assert (HtB : timings (saveTasksToStorage B) = pre1 ++ [T2])
    by (rewrite timings_saveTasksToStorage; reflexivity).
  assert (H3 : detached K (saveTasksToStorage B) T2 = true).
  { apply detached_true.
    - apply elem_of_drawn. exists it. split; [exact Hitin|].
      change (taskAnimations K) with M2. subst M2. rewrite Hit. apply lookup_insert_eq.
    - intros Hx. apply elem_of_drawn in Hx. destruct Hx as (item & _ & Hl).
      rewrite taskAnimations_saveTasksToStorage in Hl.
      change (taskAnimations B) with (delete taskId anims) in Hl.
      apply lookup_delete_Some in Hl. destruct Hl as [_ Hl].
      apply Hsnap in Hl. simpl in Hl. subst d. lia. }
  set (K2 := withTimings (List.filter (fun t => negb (detached K (render K B) t))
                            (timings (render K B))) (render K B)).
  assert (Hstep2 : commit n K B = commit n K2 (runCallback (RemoveTask taskId M2) K2)).
  { apply (commit_stop_one n K B (List.filter (detached K (saveTasksToStorage B)) pre1)
             [] T2).
    - change (timings B) with (pre1 ++ [T2]). rewrite length_app. simpl. lia.
    - rewrite HrB, HtB, List.filter_app. simpl. now rewrite H3.
    - now apply Forall_List_filter.
    - constructor.
    - reflexivity. }
  rewrite Hstep2. clear Hstep2.
  assert (HK2 : K2 = withTimings
                       (List.filter (fun t => negb (detached K (saveTasksToStorage B) t)) pre1)
                       (saveTasksToStorage B)).
  { subst K2. rewrite HrB, HtB, List.filter_app. simpl. rewrite H3. simpl.
    now rewrite app_nil_r. }
  set (pre2 := List.filter (fun t => negb (detached K (saveTasksToStorage B) t)) pre1)
    in HK2.
  assert (Hpre2 : Forall (fun t => onFinish t = None) pre2)
    by now apply Forall_List_filter.
  assert (Hn2 : (length pre2 <= n)%nat).
  { pose proof (filter_length_le
                  (fun t => negb (detached K (saveTasksToStorage B) t)) pre1).
    subst pre2. lia. }
  clearbody K2 pre2. subst K2. clear HrB H3.
  (* the callback of the fade that the press started *)
  set (K2 := withTimings pre2 (saveTasksToStorage B)).
  set (C := runCallback (RemoveTask taskId M2) K2).
  assert (HrC : render K2 C = saveTasksToStorage C).
  { apply render_changed. simpl. lia. }
  assert (HtC : timings (saveTasksToStorage C) = pre2)
    by (rewrite timings_saveTasksToStorage; reflexivity).
  rewrite (commit_stop_none n K2 C).
  2: { exact Hn2. }
  2: { rewrite HrC, HtC. now apply Forall_List_filter. }
  rewrite HrC, HtC.
  assert (HtasksB : tasks (saveTasksToStorage B) = remaining)
    by (rewrite tasks_saveTasksToStorage; reflexivity).
  assert (HtasksC : tasks C = remaining).
  { change (tasks C)
      with (filter (fun item => id item ≠ taskId) (tasks (saveTasksToStorage B))).
    rewrite HtasksB. apply filter_other_ids, not_in_filter_id. }
  assert (HcallsC : setItemCalls (saveTasksToStorage C)
                    = setItemCalls st ++ [stringify (tasksToJson remaining);
                                          stringify (tasksToJson remaining)]).
  { rewrite setItemCalls_saveTasksToStorage, HtasksC.
    change (setItemCalls C) with (setItemCalls (saveTasksToStorage B)).
    rewrite setItemCalls_saveTasksToStorage.
    change (tasks B) with remaining. change (setItemCalls B) with (setItemCalls st).
    now rewrite <- app_assoc. }
  split; [|split; [|split]].
  - simpl tasks. now rewrite tasks_saveTasksToStorage.
  - exists (stringify (tasksToJson remaining)), (stringify (tasksToJson remaining)).
    split; [exact HcallsC|]. split; apply serializes_stringify.
  - simpl taskAnimations. rewrite taskAnimations_saveTasksToStorage.
    change (taskAnimations C) with (delete taskId M2). subst M2.
    apply delete_insert_eq.
  - simpl timings. now apply Forall_List_filter.
Qed.

Lemma foldl_finishTimingStop_no_callback (ts : list Timing) (st : State) :
  Forall (fun t => onFinish t = None) ts →
  ∃ vs, foldl finishTimingStop st ts = withValues vs st.
Proof.
  intros Hall. revert st. induction Hall as [|t ts Ht _ IH]; intros st; simpl.
  - exists (values st). now destruct st.
  - unfold finishTimingStop at 2. rewrite Ht.
    destruct (IH (withValues (<[value t:=toValue t]> (values st)) st)) as [vs Hvs].
    exists vs. rewrite Hvs. reflexivity.
Qed.

(** X18: two deletions that fade at the same time.  When the first fade
    ends, its callback sets the animation map from the copy taken when the
    first deletion started, which does not hold the value of the second
    fade: the row of the second task draws another value, react-native stops
    the second fade, and its callback removes the second task in the same
    tick, before its 500 units are over.  The tick makes two saves. *)
Theorem deleteTask_overlapping (st : State) (a b : list N) (va vb : nat)
    (ea eb d : N) (animsA animsB : gmap (list N) nat) (pre mid : list Timing) :
  timings st = pre ++ [mkTiming va 0 500 ea (Some (RemoveTask a animsA))]
                   ++ mid ++ [mkTiming vb 0 500 eb (Some (RemoveTask b animsB))] →
  Forall (fun t => onFinish t = None) pre →
  Forall (fun t => onFinish t = None) mid →
  500 <= ea + d → eb + d < 500 →
  b ∈ map id (tasks st) →
  taskAnimations st !! b = Some vb →
  (∀ i, animsA !! i ≠ Some vb) →
  let st' := tickStop d st in
  let withoutA := filter (fun item => id item ≠ a) (tasks st) in
  let remaining := filter (fun item => id item ≠ b) withoutA in
  tasks st' = remaining ∧
  (∃ p1 p2, setItemCalls st' = setItemCalls st ++ [p1; p2] ∧
            serializes p1 withoutA ∧ serializes p2 remaining) ∧
  taskAnimations st' = delete b animsB ∧
  Forall (fun t => onFinish t = None) (timings st').
Proof.
  intros Htim Hpre Hmid HendA HnotB Hin Hvb Hstale st' withoutA remaining.
  set (Ta := mkTiming va 0 500 (ea + d) (Some (RemoveTask a animsA))).
  set (Tb := mkTiming vb 0 500 (eb + d) (Some (RemoveTask b animsB))).
  pose proof (proj1 (list_elem_of_In _ _) Hin) as Hin'.
  apply in_map_iff in Hin'. destruct Hin' as (it & Hit & Hitin).
  apply list_elem_of_In in Hitin.
  assert (HfA : isFinished Ta = true) by (unfold isFinished; simpl; apply N.leb_le; lia).
  assert (HfB : isFinished Tb = false) by (unfold isFinished; simpl; apply N.leb_gt; lia).
  set (Fp := List.filter isFinished (map (age d) pre)).
  set (Fm := List.filter isFinished (map (age d) mid)).
  set (Up := List.filter (fun t => negb (isFinished t)) (map (age d) pre)).
  set (Um := List.filter (fun t => negb (isFinished t)) (map (age d) mid)).
  assert (HF : List.filter isFinished (map (age d) (timings st)) = Fp ++ [Ta] ++ Fm).
  { rewrite Htim, !map_app, !List.filter_app. simpl map.
    change (age d (mkTiming va 0 500 ea (Some (RemoveTask a animsA)))) with Ta.
    change (age d (mkTiming vb 0 500 eb (Some (RemoveTask b animsB)))) with Tb.
    simpl List.filter. rewrite HfA, HfB. now rewrite app_nil_r. }
  assert (HU : List.filter (fun t => negb (isFinished t)) (map (age d) (timings st))
               = (Up ++ Um) ++ [Tb]).
  { rewrite Htim, !map_app, !List.filter_app. simpl map.
    change (age d (mkTiming va 0 500 ea (Some (RemoveTask a animsA)))) with Ta.
    change (age d (mkTiming vb 0 500 eb (Some (RemoveTask b animsB)))) with Tb.
    simpl List.filter. rewrite HfA, HfB. simpl. now rewrite app_assoc. }
  assert (Hq : Forall (fun t => onFinish t = None) (Up ++ Um)).
  { apply Forall_app. split; now apply Forall_no_callback_aged. }
  assert (HFp : Forall (fun t => onFinish t = None) Fp)
    by now apply Forall_no_callback_aged.
  assert (HFm : Forall (fun t => onFinish t = None) Fm)
    by now apply Forall_no_callback_aged.
  clearbody Fp Fm. generalize dependent (Up ++ Um). intros U HU Hq. clear Up Um.
  assert (Hst' : st' = tickStop d st) by reflexivity. clearbody st'.
  unfold tickStop in Hst'. cbv zeta in Hst'. rewrite HF, HU, !foldl_app in Hst'.
  destruct (foldl_finishTimingStop_no_callback Fp (withTimings (U ++ [Tb]) st) HFp)
    as [vs1 Hvs1].
  rewrite Hvs1 in Hst'. clear Hvs1.
  change (foldl finishTimingStop ?s [Ta]) with (finishTimingStop s Ta) in Hst'.
  unfold finishTimingStop at 2 in Hst'. simpl onFinish in Hst'. cbv iota in Hst'.
  set (K0 := withValues (<[value Ta:=toValue Ta]>
                           (values (withValues vs1 (withTimings (U ++ [Tb]) st))))
               (withValues vs1 (withTimings (U ++ [Tb]) st))) in Hst'.
  destruct (foldl_finishTimingStop_no_callback Fm
              (dispatchStop (runCallback (RemoveTask a animsA)) K0) HFm) as [vs2 Hvs2].
  rewrite Hvs2 in Hst'. clear Hvs2. subst st'.
  (* the callback of the fade that ends *)
  unfold dispatchStop. cbv zeta.
  set (A := runCallback (RemoveTask a animsA) K0).
  set (n := length (timings A)).
  assert (Hn : n = (length U + 1)%nat).
  { subst n A. rewrite timings_runCallback. simpl. rewrite length_app. reflexivity. }
  assert (HrA : render K0 A = saveTasksToStorage A)
    by (apply render_changed; simpl; lia).
  assert (HtA : timings (saveTasksToStorage A) = U ++ [Tb])
    by (rewrite timings_saveTasksToStorage; reflexivity).
  assert (H1 : detached K0 (saveTasksToStorage A) Tb = true).
  { apply detached_true.
    - apply elem_of_drawn. exists it. split; [exact Hitin|].
      change (taskAnimations K0) with (taskAnimations st). now rewrite Hit.
    - intros Hx. apply elem_of_drawn in Hx. destruct Hx as (item & _ & Hl).
      rewrite taskAnimations_saveTasksToStorage in Hl.
      change (taskAnimations A) with (delete a animsA) in Hl.
      apply lookup_delete_Some in Hl. destruct Hl as [_ Hl]. exact (Hstale _ Hl). }
  set (K := withTimings (List.filter (fun t => negb (detached K0 (render K0 A) t))
                           (timings (render K0 A))) (render K0 A)).
  assert (Hstep1 : commit n K0 A = commit n K (runCallback (RemoveTask b animsB) K)).
  { apply (commit_stop_one n K0 A
             (List.filter (detached K0 (saveTasksToStorage A)) U) [] Tb).
    - subst n. lia.
    - rewrite HrA, HtA, List.filter_app. simpl. now rewrite H1.
    - now apply Forall_List_filter.
    - constructor.
    - reflexivity. }
  rewrite Hstep1. clear Hstep1.
  assert (HK : K = withTimings
                     (List.filter (fun t => negb (detached K0 (saveTasksToStorage A) t)) U)
                     (saveTasksToStorage A)).
  { subst K. rewrite HrA, HtA, List.filter_app. simpl. rewrite H1. simpl.
    now rewrite app_nil_r. }
  set (U1 := List.filter (fun t => negb (detached K0 (saveTasksToStorage A) t)) U) in HK.
  assert (HU1 : Forall (fun t => onFinish t = None) U1) by now apply Forall_List_filter.
  assert (Hn1 : (length U1 <= n)%nat).
  { pose proof (filter_length_le
                  (fun t => negb (detached K0 (saveTasksToStorage A) t)) U).
    subst U1. lia. }
  clearbody K U1. subst K. clear HrA H1.
  (* the callback of the fade that is stopped *)
  set (K := withTimings U1 (saveTasksToStorage A)).
  set (B := runCallback (RemoveTask b animsB) K).
  assert (HrB : render K B = saveTasksToStorage B)
    by (apply render_changed; simpl; lia).
  assert (HtB : timings (saveTasksToStorage B) = U1)
    by (rewrite timings_saveTasksToStorage; reflexivity).
  rewrite (commit_stop_none n K B).
  2: { exact Hn1. }
  2: { rewrite HrB, HtB. now apply Forall_List_filter. }
  rewrite HrB, HtB.
  assert (HtasksA : tasks (saveTasksToStorage A) = withoutA)
    by (rewrite tasks_saveTasksToStorage; reflexivity).
  assert (HtasksB : tasks B = remaining).
  { change (tasks B)
      with (filter (fun item => id item ≠ b) (tasks (saveTasksToStorage A))).
    now rewrite HtasksA. }
  assert (HcallsB : setItemCalls (saveTasksToStorage B)
                    = setItemCalls st ++ [stringify (tasksToJson withoutA);
                                          stringify (tasksToJson remaining)]).
  { rewrite setItemCalls_saveTasksToStorage, HtasksB.
    change (setItemCalls B) with (setItemCalls (saveTasksToStorage A)).
    rewrite setItemCalls_saveTasksToStorage.
    change (tasks A) with withoutA. change (setItemCalls A) with (setItemCalls st).
    now rewrite <- app_assoc. }
  split; [|split; [|split]].
  - simpl tasks. now rewrite tasks_saveTasksToStorage.
  - exists (stringify (tasksToJson withoutA)), (stringify (tasksToJson remaining)).
    split; [exact HcallsB|]. split; apply serializes_stringify.
  - simpl taskAnimations. rewrite taskAnimations_saveTasksToStorage. reflexivity.
  - simpl timings. now apply Forall_List_filter.
Qed.

(** ** Where the stops change nothing *)

Lemma drawn_render (before after : State) : drawn (render before after) = drawn after.
Proof. unfold drawn. now rewrite tasks_render, taskAnimations_render. Qed.

Lemma List_filter_none {A} (f : A → bool) (l : list A) :
  (∀ x, f x = false) → List.filter f l = [].
Proof.
  intros Hf. induction l as [|a l IH]; simpl; [reflexivity|]. now rewrite Hf.
Qed.

Lemma List_filter_all {A} (f : A → bool) (l : list A) :
  (∀ x, f x = true) → List.filter f l = l.
Proof.
  intros Hf. induction l as [|a l IH]; simpl; [reflexivity|]. now rewrite Hf, IH.
Qed.

Lemma detached_same_drawn (before after : State) (t : Timing) :
  drawn after = drawn before → detached before after t = false.
Proof.
  intros Heq. unfold detached. rewrite Heq.
  destruct (bool_decide (value t ∈ drawn before)); reflexivity.
Qed.

(** A render after which the rows draw what they drew stops no timing. *)
Lemma dispatchStop_same_drawn (h : State → State) (st : State) :
  drawn (h st) = drawn st → dispatchStop h st = dispatch h st.
Proof.
  intros Heq. unfold dispatchStop, dispatch. cbv zeta.
  assert (Hd : ∀ t, detached st (render st (h st)) t = false).
  { intros t. apply detached_same_drawn. now rewrite drawn_render. }
  rewrite commit_stop_none.
  - rewrite List_filter_all by (intros t; now rewrite Hd).
    apply withTimings_timings.
  - lia.
  - rewrite List_filter_none by exact Hd. constructor.
Qed.

(** A render that stops no timing with a callback differs from the render
    of the source in the timings that go on, and in nothing else. *)
Lemma dispatchStop_quiet (h : State → State) (st : State) :
  Forall (fun t => hasCallback t = true → value t ∈ drawn (h st)) (timings (h st)) →
  ∃ ts, dispatchStop h st = withTimings ts (dispatch h st).
Proof.
  intros Hq. unfold dispatchStop, dispatch. cbv zeta. eexists.
  apply commit_stop_none; [lia|].
  rewrite timings_render. apply List.Forall_forall. intros t Hin.
  apply filter_In in Hin. destruct Hin as [Hin Hdet].
  rewrite List.Forall_forall in Hq. specialize (Hq t Hin).
  unfold hasCallback in Hq. destruct (onFinish t); [|reflexivity].
  exfalso. unfold detached in Hdet. rewrite drawn_render in Hdet.
  rewrite (bool_decide_eq_true_2 _ (Hq eq_refl)) in Hdet.
  now rewrite andb_false_r in Hdet.
Qed.

Lemma no_callback_quiet (l : list Timing) :
  existsb hasCallback l = false → Forall (fun t => onFinish t = None) l.
Proof.
  induction l as [|t l IH]; simpl; [constructor|].
  intros H. apply orb_false_iff in H. destruct H as [Ht Hl].
  constructor; [|now apply IH].
  unfold hasCallback in Ht. now destruct (onFinish t).
Qed.

Lemma quiet_not_drawn (l : list Timing) (vs : list nat) :
  Forall (fun t => onFinish t = None) l →
  Forall (fun t => hasCallback t = true → value t ∈ vs) l.
Proof.
  intros H. eapply Forall_impl; [exact H|]. intros t Ht. unfold hasCallback.
  now rewrite Ht.
Qed.

Lemma drawn_map_tasks (f : Task → Task) (st : State) :
  (∀ t, id (f t) = id t) →
  drawn (setTasks (map f) st) = drawn st.
Proof.
  intros Hf. unfold drawn. simpl tasks. simpl taskAnimations.
  induction (tasks st) as [|t l IH]; [reflexivity|].
  csimpl. rewrite Hf. destruct (taskAnimations st !! id t); [f_equal|]; exact IH.
Qed.

(** At most one timing with a callback: none, or one between timings
    without. *)
Lemma one_callback (l : list Timing) :
  (1 <? length (List.filter hasCallback l))%nat = false →
  Forall (fun t => onFinish t = None) l ∨
  ∃ pre t post, l = pre ++ t :: post ∧
                Forall (fun t => onFinish t = None) pre ∧
                Forall (fun t => onFinish t = None) post ∧
                hasCallback t = true.
Proof.
  intros H. apply Nat.ltb_ge in H.
  induction l as [|t l IH]; [left; constructor|].
  simpl in H. destruct (hasCallback t) eqn:Ht.
  - right. exists [], t, l. split; [reflexivity|]. split; [constructor|].
    split; [|exact Ht]. simpl in H.
    apply no_callback_quiet.
    destruct (List.filter hasCallback l) as [|x xs] eqn:Hf; [|simpl in H; lia].
    clear -Hf. induction l as [|y l IH]; [reflexivity|].
    simpl in *. destruct (hasCallback y); [discriminate|]. simpl. now apply IH.
  - destruct (IH H) as [Hq|(pre & t' & post & -> & Hpre & Hpost & Ht')].
    + left. constructor; [|exact Hq]. unfold hasCallback in Ht.
      now destruct (onFinish t).
    + right. exists (t :: pre), t', post. split; [reflexivity|].
      split; [|now split]. constructor; [|exact Hpre].
      unfold hasCallback in Ht. now destruct (onFinish t).
Qed.

Lemma finishTimingStop_quiet (st : State) (t : Timing) :
  onFinish t = None → finishTimingStop st t = finishTiming st t.
Proof. intros H. unfold finishTimingStop, finishTiming. now rewrite H. Qed.

Lemma foldl_finishTimingStop_quiet (l : list Timing) (st : State) :
  Forall (fun t => onFinish t = None) l →
  foldl finishTimingStop st l = foldl finishTiming st l.
Proof.
  intros H. revert st. induction H as [|t l Ht _ IH]; intros st; simpl; [reflexivity|].
  now rewrite finishTimingStop_quiet, IH.
Qed.

Lemma foldl_finishTiming_withTimings (l ts : list Timing) (st : State) :
  Forall (fun t => onFinish t = None) l →
  foldl finishTiming (withTimings ts st) l = withTimings ts (foldl finishTiming st l).
Proof.
  intros H. revert st. induction H as [|t l Ht _ IH]; intros st; simpl; [reflexivity|].
  unfold finishTiming at 2 4. rewrite Ht. simpl values.
  exact (IH (withValues (<[value t:=toValue t]> (values st)) st)).
Qed.

Lemma withTimings_withTimings (ts ts' : list Timing) (st : State) :
  withTimings ts (withTimings ts' st) = withTimings ts st.
Proof. reflexivity. Qed.

Lemma withTimings_dispatch (h : State → State) (ts : list Timing) (st : State) :
  (∀ s, h (withTimings ts s) = withTimings ts (h s)) →
  withTimings ts (dispatch h (withTimings ts st)) = withTimings ts (dispatch h st).
Proof.
  intros Hh. unfold dispatch, render. rewrite Hh. simpl tasksIdentity.
  destruct (Nat.eqb _ _); [reflexivity|].
  unfold saveTasksToStorage. simpl. destruct (setItem _ _); reflexivity.
Qed.

(** X19: where [mayEndFadeEarly] is false the renders with stops and the
    renders of the source agree: an event leaves the same state under both,
    but for the timings that go on. *)
Theorem stops_change_timings_only (e : Event) (st : State) :
  mayEndFadeEarly e st = false →
  match step e st, stepStop e st with
  | Some st1, Some st2 => ∃ ts, st2 = withTimings ts st1
  | None, None => True
  | _, _ => False
  end.
Proof.
  intros Hcalm. destruct e; simpl in Hcalm; simpl step; simpl stepStop.
  - (* ChangeText *)
    rewrite dispatchStop_same_drawn by reflexivity.
    eexists. symmetry. apply withTimings_timings.
  - (* PressAdd *)
    apply dispatchStop_quiet. apply quiet_not_drawn.
    apply no_callback_quiet in Hcalm. unfold addTask.
    destruct (truthy (trim (task st))); [|exact Hcalm].
    simpl. apply Forall_app. split; [exact Hcalm|]. now repeat constructor.
  - (* PressItem *)
    rewrite dispatchStop_same_drawn.
    + eexists. symmetry. apply withTimings_timings.
    + unfold toggleComplete. apply drawn_map_tasks.
      intros t. now destruct (bool_decide _).
  - (* PressEdit *)
    rewrite dispatchStop_same_drawn by reflexivity.
    eexists. symmetry. apply withTimings_timings.
  - (* EditText *)
    rewrite dispatchStop_same_drawn.
    + eexists. symmetry. apply withTimings_timings.
    + unfold updateTask. apply drawn_map_tasks.
      intros t. now destruct (bool_decide _).
  - (* Blur *)
    rewrite dispatchStop_same_drawn by reflexivity.
    eexists. symmetry. apply withTimings_timings.
  - (* PressDelete *)
    apply dispatchStop_quiet. apply no_callback_quiet in Hcalm.
    destruct (decide (taskId ∈ map id (tasks st))) as [Hin|Hnot].
    + rewrite (deleteTask_found st taskId Hin). simpl timings.
      apply Forall_app. split; [now apply quiet_not_drawn|].
      constructor; [|constructor]. intros _. simpl value.
      pose proof (proj1 (list_elem_of_In _ _) Hin) as Hin'.
      apply in_map_iff in Hin'. destruct Hin' as (it & Hit & Hitin).
      apply elem_of_drawn. exists it. split; [now apply list_elem_of_In|].
      simpl. rewrite Hit. apply lookup_insert_eq.
    + unfold deleteTask. rewrite (findIndex_absent taskId (tasks st) Hnot).
      simpl. now apply quiet_not_drawn.
  - (* Tick *)
    unfold tickStop, tick.
    set (U := List.filter (fun t => negb (isFinished t)) (map (age d) (timings st))).
    destruct (one_callback _ Hcalm) as [Hq|(pre & t & post & Hl & Hpre & Hpost & Ht)].
    + rewrite foldl_finishTimingStop_quiet by now apply Forall_no_callback_aged.
      eexists. symmetry. apply withTimings_timings.
    + rewrite Hl, map_app, List.filter_app. simpl map. simpl List.filter.
      destruct (isFinished (age d t)) eqn:Hfin.
      * rewrite !foldl_app. simpl foldl.
        rewrite (foldl_finishTimingStop_quiet (List.filter isFinished (map (age d) pre)))
          by now apply Forall_no_callback_aged.
        set (S0 := foldl finishTiming (withTimings U st)
                     (List.filter isFinished (map (age d) pre))).
        assert (HS0 : Forall (fun t => onFinish t = None) (timings S0)).
        { destruct (foldl_finishTiming_no_callback
                      (List.filter isFinished (map (age d) pre)) (withTimings U st))
            as [vs Hvs]; [now apply Forall_no_callback_aged|].
          subst S0. rewrite Hvs. simpl. subst U. rewrite Hl, map_app, List.filter_app.
          simpl map. simpl List.filter. rewrite Hfin. simpl.
          apply Forall_app. split; now apply Forall_no_callback_aged. }
        unfold finishTimingStop at 2, finishTiming at 2.
        unfold hasCallback in Ht. simpl onFinish.
        destruct (onFinish t) as [cb|]; [|discriminate].
        set (S1 := withValues (<[value (age d t):=toValue (age d t)]> (values S0)) S0).
        destruct (dispatchStop_quiet (runCallback cb) S1) as [ts Hts].
        { apply quiet_not_drawn. rewrite timings_runCallback. exact HS0. }
        rewrite Hts.
        rewrite (foldl_finishTimingStop_quiet (List.filter isFinished (map (age d) post)))
          by now apply Forall_no_callback_aged.
        exists ts. apply foldl_finishTiming_withTimings.
        now apply Forall_no_callback_aged.
      * rewrite foldl_finishTimingStop_quiet.
        -- eexists. symmetry. apply withTimings_timings.
        -- apply Forall_app. split; now apply Forall_no_callback_aged.
  - (* LoadSettled *)
    apply no_callback_quiet in Hcalm.
    unfold loadTasksFromStorage, loadTasksFromStorageStop.
    destruct (pendingRead st) as [[[savedTasks|]|]|];
      try (eexists; symmetry; apply withTimings_timings).
    destruct (truthy savedTasks); [|eexists; symmetry; apply withTimings_timings].
    destruct (JSON_parse savedTasks) as [v|];
      [|eexists; symmetry; apply withTimings_timings].
    destruct (asTaskList v) as [l|]; [|exact I].
    apply dispatchStop_quiet. now apply quiet_not_drawn.
  - (* StorageFault *)
    eexists. symmetry. apply withTimings_timings.
Qed.

(** ** persist, with the stops *)

Lemma existsb_List_filter {A} (f g : A → bool) (l : list A) :
  existsb f (List.filter g l) = existsb (fun x => f x && g x) l.
Proof.
  induction l as [|a l IH]; simpl; [reflexivity|].
  destruct (g a); simpl; rewrite IH.
  - now rewrite andb_true_r.
  - now rewrite andb_false_r.
Qed.

Lemma saved_render (before after : State) :
  setItemCalls after = setItemCalls before →
  (tasksIdentity after = tasksIdentity before → tasks after = tasks before) →
  ∃ calls, saved before (render before after) calls ∧
           (calls = [] ↔ tasksIdentity after = tasksIdentity before).
Proof.
  intros Hcalls Htasks. unfold render.
  destruct (Nat.eqb_spec (tasksIdentity before) (tasksIdentity after)) as [Heq|Hne].
  - exists []. split; [apply saved_nothing; auto|]. split; auto.
  - exists [stringify (tasksToJson (tasks after))]. split.
    + split.
      * now rewrite setItemCalls_saveTasksToStorage, Hcalls.
      * simpl. rewrite tasks_saveTasksToStorage. apply serializes_stringify.
    + split; [discriminate|]. intros Heq. now symmetry in Heq.
Qed.

Lemma saved_foldl_runStopped (n : nat) :
  (∀ st cb, (length (timings st) <= n)%nat →
            ∃ calls, saved st (commit n st (runCallback cb st)) calls ∧ calls ≠ []) →
  ∀ l st, (length (timings st) <= n)%nat →
    ∃ calls, saved st (foldl (runStopped n) st l) calls ∧
             (calls = [] ↔ existsb hasCallback l = false).
Proof.
  intros Hcb l. induction l as [|t l IH]; intros st Hn; simpl.
  - exists []. split; [now apply saved_nothing|]. split; reflexivity.
  - assert (H1 : ∃ c1, saved st (runStopped n st t) c1 ∧
                       (c1 = [] ↔ hasCallback t = false)).
    { unfold runStopped, hasCallback. destruct (onFinish t) as [cb|].
      - destruct (Hcb st cb Hn) as (c1 & Hs & Hne). exists c1. split; [exact Hs|].
        split; [contradiction|discriminate].
      - exists []. split; [now apply saved_nothing|]. split; reflexivity. }
    destruct H1 as (c1 & P1 & E1).
    destruct (IH (runStopped n st t)) as (c2 & P2 & E2).
    { etransitivity; [apply timings_runStopped_le|exact Hn]. }
    exists (c1 ++ c2). split; [exact (saved_trans _ _ _ _ _ P1 P2)|].
    rewrite orb_false_iff, <- E1, <- E2. split.
    + intros H. now apply app_eq_nil in H.
    + intros [-> ->]. reflexivity.
Qed.

(** What a render with its stops saves: nothing when the list in [tasks] is
    the one of the render before and no fade is stopped, and otherwise, at
    last, the list it leaves. *)
Lemma saved_commit (n : nat) (before after : State) :
  (length (timings after) <= n)%nat →
  setItemCalls after = setItemCalls before →
  (tasksIdentity after = tasksIdentity before → tasks after = tasks before) →
  ∃ calls, saved before (commit n before after) calls ∧
           (calls = [] ↔
            tasksIdentity after = tasksIdentity before ∧
            existsb (fun t => hasCallback t && detached before after t) (timings after)
            = false).
Proof.
  revert before after. induction n as [|n IH]; intros before after Hn Hcalls Htasks.
  - assert (Hnil : timings after = []) by (apply length_zero_iff_nil; lia).
    rewrite commit_O, Hnil. simpl.
    destruct (saved_render before after Hcalls Htasks) as (calls & Hs & He).
    exists calls. split; [exact Hs|]. rewrite He. tauto.
  - rewrite commit_S.
    destruct (saved_render before after Hcalls Htasks) as (c0 & Hs0 & He0).
    assert (Hd : ∀ t, detached before (render before after) t = detached before after t).
    { intros t. unfold detached. now rewrite drawn_render. }
    assert (Hex : existsb hasCallback
                    (List.filter (detached before (render before after))
                       (timings (render before after)))
                  = existsb (fun t => hasCallback t && detached before after t)
                      (timings after)).
    { rewrite existsb_List_filter, timings_render. clear -Hd.
      induction (timings after) as [|t l IHl]; simpl; [reflexivity|].
      now rewrite Hd, IHl. }
    pose proof (filter_length (detached before (render before after))
                  (timings (render before after))) as Hlen.
    rewrite timings_render in Hlen at 3.
    set (st1 := render before after) in *.
    set (K := withTimings (List.filter (fun t => negb (detached before st1 t))
                             (timings st1)) st1).
    assert (H1 : ∃ c1, saved K (foldl (runStopped n) K
                                  (List.filter (detached before st1) (timings st1))) c1 ∧
                       (c1 = [] ↔
                        existsb hasCallback
                          (List.filter (detached before st1) (timings st1)) = false)).
    { destruct (List.filter (detached before st1) (timings st1)) as [|t ts] eqn:Hstop.
      - exists []. split; [now apply saved_nothing|]. split; reflexivity.
      - apply saved_foldl_runStopped.
        + intros st cb Hst.
          destruct (IH st (runCallback cb st)) as (calls & Hs & He).
          * now rewrite timings_runCallback.
          * now destruct cb.
          * destruct cb. simpl. lia.
          * exists calls. split; [exact Hs|]. intros Hnil.
            apply He in Hnil. destruct Hnil as [Hid _]. destruct cb. simpl in Hid. lia.
        + simpl length in Hlen. simpl timings. lia. }
    destruct H1 as (c1 & Hs1 & He1).
    exists (c0 ++ c1). split.
    + exact (saved_trans before K _ c0 c1 Hs0 Hs1).
    + rewrite Hex in He1. rewrite <- He0, <- He1. split.
      * intros H. now apply app_eq_nil in H.
      * intros [-> ->]. reflexivity.
Qed.

Lemma saved_dispatchStop (h : State → State) (st : State) :
  setItemCalls (h st) = setItemCalls st →
  (tasksIdentity (h st) = tasksIdentity st → tasks (h st) = tasks st) →
  ∃ calls, saved st (dispatchStop h st) calls ∧
           (calls = [] ↔ tasksIdentity (h st) = tasksIdentity st ∧ stopsFade h st = false).
Proof. intros Hc Ht. unfold dispatchStop. cbv zeta. now apply saved_commit. Qed.

Lemma saved_finishTimingStop (st : State) (t : Timing) :
  ∃ calls, saved st (finishTimingStop st t) calls ∧
           (calls = [] ↔ hasCallback t = false).
Proof.
  unfold finishTimingStop, hasCallback. destruct (onFinish t) as [[taskId anims]|].
  - set (st1 := withValues (<[value t:=toValue t]> (values st)) st).
    destruct (saved_dispatchStop (runCallback (RemoveTask taskId anims)) st1)
      as (calls & Hs & He); [reflexivity|simpl; lia|].
    exists calls. split; [exact Hs|]. split; [|discriminate].
    intros Hnil. apply He in Hnil. destruct Hnil as [Hid _]. simpl in Hid. lia.
  - exists []. split; [now apply saved_nothing|]. split; reflexivity.
Qed.

Lemma saved_foldl_finishTimingStop (ts : list Timing) (st : State) :
  ∃ calls, saved st (foldl finishTimingStop st ts) calls ∧
           (calls = [] ↔ existsb hasCallback ts = false).
Proof.
  revert st. induction ts as [|t ts IH]; intros st; simpl.
  - exists []. split; [now apply saved_nothing|]. split; reflexivity.
  - destruct (saved_finishTimingStop st t) as (c1 & P1 & E1).
    destruct (IH (finishTimingStop st t)) as (c2 & P2 & E2).
    exists (c1 ++ c2). split; [exact (saved_trans _ _ _ _ _ P1 P2)|].
    rewrite orb_false_iff, <- E1, <- E2. split.
    + intros H. now apply app_eq_nil in H.
    + intros [-> ->]. reflexivity.
Qed.

(** X20: persist in every state, the stops followed.  An event makes no
    [setItem] call exactly when [setTasks] is not called in its course,
    neither by its handler or callback nor by the callback of a fade that
    the render stops; and the last call of an event passes a serialization
    of the task list that the event leaves. *)
Theorem persist_with_stops (e : Event) (st st' : State) :
  stepStop e st = Some st' →
  ∃ calls, saved st st' calls ∧ (calls = [] ↔ setsTasksStop e st = false).
Proof.
  intros Hstep. unfold setsTasksStop.
  destruct e; simpl in Hstep; simpl setsTasks; try (injection Hstep as <-).
  - (* ChangeText *)
    destruct (saved_dispatchStop (setTask newText) st) as (calls & Hs & He);
      [reflexivity|reflexivity|].
    exists calls. split; [exact Hs|]. rewrite He. simpl. tauto.
  - (* PressAdd *)
    destruct (saved_dispatchStop (addTask now) st) as (calls & Hs & He).
    { unfold addTask. destruct (truthy (trim (task st))); reflexivity. }
    { unfold addTask. destruct (truthy (trim (task st))); [simpl; lia|reflexivity]. }
    exists calls. split; [exact Hs|]. rewrite He, orb_false_iff.
    unfold addTask at 1. destruct (truthy (trim (task st))); simpl; [|tauto].
    split; [intros [? _]; lia|intros [? _]; discriminate].
  - (* PressItem *)
    destruct (saved_dispatchStop (toggleComplete taskId) st) as (calls & Hs & He);
      [reflexivity|simpl; lia|].
    exists calls. split; [exact Hs|]. rewrite He. simpl.
    split; [intros [? _]; lia|discriminate].
  - (* PressEdit *)
    destruct (saved_dispatchStop (setEditingId (Some taskId)) st) as (calls & Hs & He);
      [reflexivity|reflexivity|].
    exists calls. split; [exact Hs|]. rewrite He. simpl. tauto.
  - (* EditText *)
    destruct (saved_dispatchStop (updateTask taskId newText) st) as (calls & Hs & He);
      [reflexivity|simpl; lia|].
    exists calls. split; [exact Hs|]. rewrite He. simpl.
    split; [intros [? _]; lia|discriminate].
  - (* Blur *)
    destruct (saved_dispatchStop handleBlur st) as (calls & Hs & He);
      [reflexivity|reflexivity|].
    exists calls. split; [exact Hs|]. rewrite He. simpl. tauto.
  - (* PressDelete *)
    destruct (saved_dispatchStop (deleteTask taskId) st) as (calls & Hs & He).
    { unfold deleteTask. destruct (0 <=? _)%Z; reflexivity. }
    { unfold deleteTask. destruct (0 <=? _)%Z; reflexivity. }
    exists calls. split; [exact Hs|]. rewrite He. simpl.
    assert (Hid : tasksIdentity (deleteTask taskId st) = tasksIdentity st)
      by (unfold deleteTask; destruct (0 <=? _)%Z; reflexivity).
    tauto.
  - (* Tick *)
    unfold tickStop. rewrite orb_false_r.
    destruct (saved_foldl_finishTimingStop
                (List.filter isFinished (map (age d) (timings st)))
                (withTimings
                   (List.filter (fun t => negb (isFinished t)) (map (age d) (timings st)))
                   st)) as (calls & [Hc Hl] & Hn).
    exists calls. split; [|exact Hn]. split; [exact Hc|exact Hl].
  - (* LoadSettled *)
    rewrite orb_false_r. unfold loadTasksFromStorageStop in Hstep. unfold loadBranch.
    destruct (pendingRead st) as [[[savedTasks|]|]|].
    + destruct (truthy savedTasks).
      * destruct (JSON_parse savedTasks) as [v|].
        -- destruct (asTaskList v) as [l|]; [|discriminate].
           injection Hstep as <-.
           destruct (saved_dispatchStop (setTasks (fun _ => l)) (withPendingRead None st))
             as (calls & Hs & He); [reflexivity|simpl; lia|].
           exists calls. split; [exact Hs|]. split; [|discriminate].
           intros Hnil. apply He in Hnil. destruct Hnil as [Hid _]. simpl in Hid. lia.
        -- injection Hstep as <-. exists []. split; [now apply saved_nothing|].
           split; reflexivity.
      * injection Hstep as <-. exists []. split; [now apply saved_nothing|].
        split; reflexivity.
    + injection Hstep as <-. exists []. split; [now apply saved_nothing|].
      split; reflexivity.
    + injection Hstep as <-. exists []. split; [now apply saved_nothing|].
      split; reflexivity.
    + injection Hstep as <-. exists []. split; [now apply saved_nothing|].
      split; reflexivity.
  - (* StorageFault *)
    exists []. split; [now apply saved_nothing|]. split; reflexivity.
Qed.

(** ** The statements above at concrete states *)

Lemma deleteTask_twice_witness :
  let st := tickStop 200 (dispatchStop (deleteTask (lit "17")) exampleTwoTasks) in
  let st' := dispatchStop (deleteTask (lit "17")) st in
  let remaining := filter (fun item => id item ≠ lit "17") (tasks st) in
  tasks st = tasks exampleTwoTasks ∧
  remaining = [mkTask (lit "18") (lit "B") false] ∧
  tasks st' = remaining ∧
  (∃ p1 p2, setItemCalls st' = setItemCalls st ++ [p1; p2] ∧
            serializes p1 remaining ∧ serializes p2 remaining) ∧
  taskAnimations st' = delete (lit "17") (taskAnimations st) ∧
  Forall (fun t => onFinish t = None) (timings st').
Proof.
  intros st st' remaining.
  split; [vm_compute; reflexivity|]. split; [vm_compute; reflexivity|].
  apply (deleteTask_twice st (lit "17") 2 200
           (<[lit "17" := 2%nat]> (taskAnimations exampleTwoTasks))
           [mkTiming 1 1 500 200 None]).
  - apply (bool_decide_unpack _). vm_compute. exact I.
  - vm_compute. reflexivity.
  - intros i Hi.
    assert (HF : map_Forall (fun i a => a = 2%nat → i = lit "17") (taskAnimations st))
      by (apply (bool_decide_unpack _); vm_compute; exact I).
    exact (HF i 2%nat Hi eq_refl).
  - change (map_Forall (fun _ a => (a < length (values st))%nat) (taskAnimations st)).
    apply (bool_decide_unpack _). vm_compute. exact I.
  - change (map_Forall (fun _ a => (a < length (values st))%nat)
              (<[lit "17" := 2%nat]> (taskAnimations exampleTwoTasks))).
    apply (bool_decide_unpack _). vm_compute. exact I.
  - vm_compute. reflexivity.
  - repeat constructor.
Defined.

Lemma deleteTask_overlapping_witness :
  let st1 := tickStop 100 (dispatchStop (deleteTask (lit "17")) exampleTwoTasks) in
  let st := dispatchStop (deleteTask (lit "18")) st1 in
  let st' := tickStop 400 st in
  let withoutA := filter (fun item => id item ≠ lit "17") (tasks st) in
  let remaining := filter (fun item => id item ≠ lit "18") withoutA in
  tasks st = tasks exampleTwoTasks ∧
  tasks (tickStop 399 st) = tasks exampleTwoTasks ∧
  remaining = [] ∧
  tasks st' = remaining ∧
  (∃ p1 p2, setItemCalls st' = setItemCalls st ++ [p1; p2] ∧
            serializes p1 withoutA ∧ serializes p2 remaining) ∧
  taskAnimations st' = delete (lit "18") (taskAnimations st) ∧
  Forall (fun t => onFinish t = None) (timings st').
Proof.
  intros st1 st st' withoutA remaining.
  split; [vm_compute; reflexivity|]. split; [vm_compute; reflexivity|].
  split; [vm_compute; reflexivity|].
  apply (deleteTask_overlapping st (lit "17") (lit "18") 2 3 100 0 400
           (<[lit "17" := 2%nat]> (taskAnimations exampleTwoTasks))
           (taskAnimations st) [] []).
  - vm_compute. reflexivity.
  - constructor.
  - constructor.
  - discriminate.
  - reflexivity.
  - apply (bool_decide_unpack _). vm_compute. exact I.
  - vm_compute. reflexivity.
  - intros i Hi.
    assert (HF : map_Forall (fun _ a => a ≠ 3%nat)
                   (<[lit "17" := 2%nat]> (taskAnimations exampleTwoTasks)))
      by (apply (bool_decide_unpack _); vm_compute; exact I).
    exact (HF i 3%nat Hi eq_refl).
Defined.

(** The two scenes from the empty list, through the events: tasks "A" and "B"
    are added at clock 17 and 18; then either the delete button of "A" is
    pressed twice, 200 units apart, or the delete buttons of "A" and "B" are
    pressed 100 units apart and 400 more units pass.  With the render of the
    source file alone both tasks, respectively "B", would still be there. *)
Example scenario_fades_cut_short :
  let start := mount (mkStorage None false) in
  let two := [LoadSettled; ChangeText (lit "A"); PressAdd 17;
              ChangeText (lit "B"); PressAdd 18] in
  let twice := two ++ [PressDelete (lit "17"); Tick 200; PressDelete (lit "17")] in
  let both := two ++ [PressDelete (lit "17"); Tick 100; PressDelete (lit "18");
                      Tick 400] in
  (tasks <$> runStop twice start) = Some [mkTask (lit "18") (lit "B") false] ∧
  (tasks <$> run twice start)
  = Some [mkTask (lit "17") (lit "A") false; mkTask (lit "18") (lit "B") false] ∧
  (tasks <$> runStop both start) = Some [] ∧
  (tasks <$> run both start) = Some [mkTask (lit "18") (lit "B") false].
Proof. repeat split; vm_compute; reflexivity. Qed.

Lemma stops_change_timings_only_witness :
  let st := dispatch (deleteTask (lit "17")) exampleTwoTasks in
  ∃ ts, tickStop 500 st = withTimings ts (tick 500 st).
Proof.
  exact (stops_change_timings_only (Tick 500)
           (dispatch (deleteTask (lit "17")) exampleTwoTasks) eq_refl).
Defined.

Lemma persist_with_stops_witness :
  let st := tickStop 200 (dispatchStop (deleteTask (lit "17")) exampleTwoTasks) in
  (∃ calls, saved st (dispatchStop (deleteTask (lit "17")) st) calls ∧
            (calls = [] ↔ setsTasksStop (PressDelete (lit "17")) st = false)) ∧
  setsTasks (PressDelete (lit "17")) st = false ∧
  setsTasksStop (PressDelete (lit "17")) st = true.
Proof.
  intros st. split; [|split; vm_compute; reflexivity].
  exact (persist_with_stops (PressDelete (lit "17")) st _ eq_refl).
Defined.
